(** * floatify.py: integer-to-float coercion of Lottie frame and size fields

    A shallow embedding of [floatify.py]: the recursive, in-place
    [floatify] walk over a parsed JSON document, and the module-level
    load / transform / save driver with its catch-all handler.

    - Python values produced by [json.load] are the inductive [json].
      [bool] is a subclass of [int] in Python, so [isinstance(v, int)]
      holds of [True] and [False] as well as of integers.
    - Python's [float] is IEEE 754 binary64; [float(n)] of an integer is
      the correctly rounded (nearest, ties to even) double and raises
      [OverflowError] when that rounding leaves the finite range.  It is
      modelled with [SpecFloat.binary_normalize 53 1024].
    - [floatify] mutates its argument in place and may be interrupted by
      an exception; it is modelled as a function returning the object as
      it is left by the call together with the exception raised, if any.
    - The interpreter's call stack is taken to be unbounded (no
      [RecursionError]).
    - [sys.stdout] is the list of lines written to it, with its mode
      (write-through or buffered) and the device behind it: [print]
      raises on a device that refuses a write-through line, and the
      flush at exit fails on a device that refuses the buffer. *)

From Stdlib Require Import ZArith Lia SpecFloat.
From stdpp Require Import base option list strings gmap.

Local Open Scope string_scope.
Local Open Scope list_scope.
Local Open Scope Z_scope.

(** ** Exceptions *)

(** The exception classes the script can meet.  All of them derive from
    [Exception] except [KeyboardInterrupt], which derives from
    [BaseException] only. *)
Inductive exn : Type :=
  | IndexError
  | FileNotFoundError (path : string)
  | IsADirectoryError (path : string)
  | PermissionError (path : string)
  | NoSpaceError
  | BrokenPipeError
  | ValueError (msg : string)
  | OverflowError
  | KeyboardInterrupt.

Definition isinstance_Exception (e : exn) : bool :=
  match e with
  | KeyboardInterrupt => false
  | _ => true
  end.

(** ** JSON values as [json.load] builds them *)

#[local] Unset Elimination Schemes.
Inductive json : Type :=
  | JNull
  | JBool (b : bool)
  | JInt (n : Z)
  | JFloat (x : spec_float)
  | JStr (s : string)
  | JList (elems : list json)
  | JDict (items : list (string * json)).
#[local] Set Elimination Schemes.

(** A [dict] keeps its items in insertion order. *)
Abbreviation dict := (list (string * json)).

Module Float.

(** binary64 *)
Definition prec : Z := 53.
Definition emax : Z := 1024.

(** [float(n)] for a Python integer [n]. *)
Definition of_int (n : Z) : exn + spec_float :=
  match binary_normalize prec emax n 0 false with
  | S754_infinity _ => inl OverflowError
  | x => inr x
  end.

(** [x == n] for a float [x] and an integer [n], compared exactly:
    a finite float is [(-1)^s * m * 2^e]. *)
Definition eq_int (x : spec_float) (n : Z) : bool :=
  match x with
  | S754_zero _ => n =? 0
  | S754_finite s m e =>
      cond_Zopp s (Zpos m) * 2 ^ Z.max 0 e =? n * 2 ^ Z.max 0 (- e)
  | _ => false
  end.

(** [1.0] and [0.0] *)
Definition one : spec_float := S754_finite false 4503599627370496 (-52).
Definition zero : spec_float := S754_zero false.

Definition is_infinity (x : spec_float) : bool :=
  match x with S754_infinity _ => true | _ => false end.

(** The least integer magnitude that rounds out of range: half an
    ulp, [2^970], above the largest finite double, [2^1024 - 2^971]. *)
Definition overflow_threshold : Z := 2 ^ 1024 - 2 ^ 970.

End Float.

(** ** The transform *)

(** [['ip', 'op', 'st', 'fr', 'w', 'h']] *)
Definition target_keys : list string := ["ip"; "op"; "st"; "fr"; "w"; "h"].

(** [k in ['ip', 'op', 'st', 'fr', 'w', 'h']] *)
Definition is_target (k : string) : bool := bool_decide (k ∈ target_keys).

(** [isinstance(v, int)]: true of integers and, [bool] being a subclass
    of [int], of booleans. *)
Definition isinstance_int (v : json) : bool :=
  match v with
  | JInt _ | JBool _ => true
  | _ => false
  end.

(** The integer a value that passes [isinstance(v, int)] stands for
    ([True] is 1 and [False] is 0). *)
Definition int_of (v : json) : Z :=
  match v with
  | JInt n => n
  | JBool b => Z.b2z b
  | _ => 0
  end.

(** [float(v)] where [isinstance(v, int)]. *)
Definition float (v : json) : exn + spec_float := Float.of_int (int_of v).

(** The result of a call that works in place: the object as the call
    leaves it, and the exception that ended the call, if one did. *)
Abbreviation outcome A := (A * option exn)%type.

(** [for i in obj: f(i)] over a list. *)
Definition for_elems (f : json → outcome json) : list json → outcome (list json) :=
  fix loop elems :=
    match elems with
    | [] => ([], None)
    | i :: rest =>
        match f i with
        | (i', Some e) => (i' :: rest, Some e)
        | (i', None) => let '(rest', r) := loop rest in (i' :: rest', r)
        end
    end.

(** [for k, v in obj.items(): ...] over a dict.  Keys of a dict are
    unique, so the store [obj[k] = float(v)] replaces the value of the
    item being visited and nothing else; neither the size nor the order
    of the dict changes during the loop.  ([items_loop] below stores by
    key, and [for_items_in_place_correct] relates the two.) *)
Definition for_items (f : json → outcome json) : dict → outcome dict :=
  fix loop items :=
    match items with
    | [] => ([], None)
    | (k, v) :: rest =>
        if is_target k && isinstance_int v then
          match float v with
          | inl e => ((k, v) :: rest, Some e)
          | inr x => let '(rest', r) := loop rest in ((k, JFloat x) :: rest', r)
          end
        else
          match f v with
          | (v', Some e) => ((k, v') :: rest, Some e)
          | (v', None) => let '(rest', r) := loop rest in ((k, v') :: rest', r)
          end
    end.

Fixpoint floatify (obj : json) : outcome json :=
  match obj with
  | JDict items => let '(items', r) := for_items floatify items in (JDict items', r)
  | JList elems => let '(elems', r) := for_elems floatify elems in (JList elems', r)
  | _ => (obj, None)
  end.

(** ** The loop over a dict, as the interpreter runs it *)

(** [obj[k] = x]: the value of the item with key [k] is replaced where
    the item stands; a new key is added at the end. *)
Fixpoint dict_set (k : string) (x : json) (items : dict) : dict :=
  match items with
  | [] => [(k, x)]
  | (k', v) :: rest =>
      if decide (k' = k) then (k, x) :: rest else (k', v) :: dict_set k x rest
  end.

(** The iterator of [obj.items()] is a position [i] in the dict that
    the body of the loop mutates, with [n] turns left.  A child that
    [f] mutates in place is the very object the dict holds under [k],
    so the dict holds the mutated child afterwards. *)
Fixpoint items_loop (f : json → outcome json) (n i : nat) (obj : dict) : outcome dict :=
  match n with
  | O => (obj, None)
  | S n' =>
      match obj !! i with
      | None => (obj, None)
      | Some (k, v) =>
          if is_target k && isinstance_int v then
            match float v with
            | inl e => (obj, Some e)
            | inr x => items_loop f n' (S i) (dict_set k (JFloat x) obj)
            end
          else
            match f v with
            | (v', Some e) => (dict_set k v' obj, Some e)
            | (v', None) => items_loop f n' (S i) (dict_set k v' obj)
            end
      end
  end.

Definition for_items_in_place (f : json → outcome json) (obj : dict) : outcome dict :=
  items_loop f (length obj) 0 obj.

(** ** Reading a document *)

(** One step down from a container: [obj[k]] in a dict, [obj[i]] in a
    list. *)
Inductive step : Type :=
  | Key (k : string)
  | Index (i : nat).

(** [obj[k]] for a dict. *)
Fixpoint dict_get (k : string) (items : dict) : option json :=
  match items with
  | [] => None
  | (k', v) :: rest => if decide (k' = k) then Some v else dict_get k rest
  end.

Definition child (s : step) (obj : json) : option json :=
  match s, obj with
  | Key k, JDict items => dict_get k items
  | Index i, JList elems => elems !! i
  | _, _ => None
  end.

(** The value reached from the root along a path of keys and indices. *)
Fixpoint at_path (p : list step) (obj : json) : option json :=
  match p with
  | [] => Some obj
  | s :: p' => child s obj ≫= at_path p'
  end.

(** What one turn of the enclosing loop does with the value [v] found
    under step [s]: under a target key an [int] is replaced by
    [float(v)], everything else is handed to [floatify]. *)
Definition visit (s : step) (v : json) : outcome json :=
  match s with
  | Key k =>
      if is_target k && isinstance_int v then
        match float v with
        | inl e => (v, Some e)
        | inr x => (JFloat x, None)
        end
      else floatify v
  | Index _ => floatify v
  end.

(** The same for the value at the end of a path; the root is handed to
    [floatify] by the script itself. *)
Definition visit_at (p : list step) (v : json) : outcome json :=
  match last p with
  | Some s => visit s v
  | None => floatify v
  end.

Definition is_container (v : json) : bool :=
  match v with
  | JList _ | JDict _ => true
  | _ => false
  end.

(** ** Shape of a document *)

(** A document with its leaves erased: the keys of every object in
    their order, the length of every array, and the nesting. *)
#[local] Unset Elimination Schemes.
Inductive shape : Type :=
  | Leaf
  | Arr (elems : list shape)
  | Obj (items : list (string * shape)).
#[local] Set Elimination Schemes.

Fixpoint shape_of (v : json) : shape :=
  match v with
  | JList elems => Arr (map shape_of elems)
  | JDict items => Obj (map (λ kv, (kv.1, shape_of kv.2)) items)
  | _ => Leaf
  end.

(** [coerced v v']: [v'] is [v] except that [int]s under target keys
    may have become their floats. *)
#[local] Unset Elimination Schemes.
Inductive coerced : json → json → Prop :=
  | coerced_same v : coerced v v
  | coerced_list elems elems' :
      Forall2 coerced elems elems' → coerced (JList elems) (JList elems')
  | coerced_dict (items items' : dict) :
      Forall2 (λ kv kv',
                 kv.1 = kv'.1 ∧
                 (coerced kv.2 kv'.2 ∨
                  is_target kv.1 = true ∧ isinstance_int kv.2 = true ∧
                  ∃ x, float kv.2 = inr x ∧ kv'.2 = JFloat x))
              items items' →
      coerced (JDict items) (JDict items').
#[local] Set Elimination Schemes.

(** No object of the document, at any depth, has a target key. *)
Fixpoint no_target_keys (v : json) : bool :=
  match v with
  | JList elems => forallb no_target_keys elems
  | JDict items => forallb (λ kv, negb (is_target kv.1) && no_target_keys kv.2) items
  | _ => true
  end.

(** Every [int] the walk finds under a target key is small enough for
    [float] to convert it. *)
Fixpoint in_range (v : json) : bool :=
  match v with
  | JList elems => forallb in_range elems
  | JDict items =>
      forallb (λ kv, if is_target kv.1 && isinstance_int kv.2
                     then Z.abs (int_of kv.2) <? Float.overflow_threshold
                     else in_range kv.2) items
  | _ => true
  end.

(** ** Induction on documents *)

Section json_ind.
Variable P : json → Prop.
Hypothesis Hnull : P JNull.
Hypothesis Hbool : ∀ b, P (JBool b).
Hypothesis Hint : ∀ n, P (JInt n).
Hypothesis Hfloat : ∀ x, P (JFloat x).
Hypothesis Hstr : ∀ s, P (JStr s).
Hypothesis Hlist : ∀ elems, Forall P elems → P (JList elems).
Hypothesis Hdict : ∀ items : dict, Forall (λ kv, P kv.2) items → P (JDict items).

Fixpoint json_ind (j : json) : P j :=
  match j with
  | JNull => Hnull
  | JBool b => Hbool b
  | JInt n => Hint n
  | JFloat x => Hfloat x
  | JStr s => Hstr s
  | JList elems =>
      Hlist elems
        ((fix all (l : list json) : Forall P l :=
            match l with
            | [] => @ListDef.Forall_nil _ P
            | i :: l' => @ListDef.Forall_cons _ P i l' (json_ind i) (all l')
            end) elems)
  | JDict items =>
      Hdict items
        ((fix all (l : dict) : Forall (λ kv, P kv.2) l :=
            match l with
            | [] => @ListDef.Forall_nil _ _
            | kv :: l' =>
                @ListDef.Forall_cons _ (λ kv, P kv.2) kv l' (json_ind kv.2) (all l')
            end) items)
  end.
End json_ind.

(** ** Scenario documents *)

Definition scenario1 : json :=
  JDict [("ip", JInt 0); ("op", JInt 100); ("fr", JInt 30);
         ("w", JInt 1920); ("h", JInt 1080)].

(** [{"ip": 0.0, "op": 100.0, "fr": 30.0, "w": 1920.0, "h": 1080.0}] *)
Definition scenario1_floats : json :=
  JDict [("ip", JFloat Float.zero);
         ("op", JFloat (S754_finite false 7036874417766400 (-46)));
         ("fr", JFloat (S754_finite false 8444249301319680 (-48)));
         ("w", JFloat (S754_finite false 8444249301319680 (-42)));
         ("h", JFloat (S754_finite false 4749890231992320 (-42)))].

Definition scenario2 : json :=
  JDict [("layers", JList [JDict [("st", JInt 5); ("w", JInt 200)];
                           JDict [("st", JInt 10)]])].

(** [{"layers": [{"st": 5.0, "w": 200.0}, {"st": 10.0}]}] *)
Definition scenario2_floats : json :=
  JDict [("layers",
          JList [JDict [("st", JFloat (S754_finite false 5629499534213120 (-50)));
                        ("w", JFloat (S754_finite false 7036874417766400 (-45)))];
                 JDict [("st", JFloat (S754_finite false 5629499534213120 (-49)))]])].

Definition scenario3 : json := JDict [("w", JBool true)].

Definition scenario4 : json := JDict [("name", JStr "op")].

(** ** The script around the transform *)

(** What the script takes from the interpreter and its [json] module:
    the parser behind [json.load] (the text of a file to a document,
    or the message of the [ValueError] it raises), the serialiser
    behind [json.dump(data, f, indent=4)], and [repr] of a path as it
    appears in the messages of operating-system errors. *)
Class Runtime : Type := {
  json_loads : string → string + json;
  json_dumps : json → string;
  repr : string → string;
}.

(** [str(e)], which is what [print(e)] writes. *)
Definition str `{Runtime} (e : exn) : string :=
  match e with
  | IndexError => "list index out of range"
  | FileNotFoundError path => "[Errno 2] No such file or directory: " +:+ repr path
  | IsADirectoryError path => "[Errno 21] Is a directory: " +:+ repr path
  | PermissionError path => "[Errno 13] Permission denied: " +:+ repr path
  | NoSpaceError => "[Errno 28] No space left on device"
  | BrokenPipeError => "[Errno 32] Broken pipe"
  | ValueError msg => msg
  | OverflowError => "int too large to convert to float"
  | KeyboardInterrupt => ""
  end.

Inductive node : Type :=
  | Directory
  | File (readable writable : bool) (content : string).

(** What is behind [sys.stdout]: a terminal, file or pipe that takes
    what is written to it, a device that is full, or a pipe whose
    reader has gone. *)
Inductive device : Type :=
  | Accepting
  | Full
  | BrokenPipe.

(** The [OSError] that a write to the device raises, if it raises. *)
Definition device_error (d : device) : option exn :=
  match d with
  | Accepting => None
  | Full => Some NoSpaceError
  | BrokenPipe => Some BrokenPipeError
  end.

(** The part of the world the script reads and writes: its arguments,
    the file system, the number of bytes the device of the files still
    accepts, the lines written to [sys.stdout] so far, whether
    [sys.stdout] hands every line to its device at once (unbuffered,
    [python -u], or line-buffered) rather than at exit, and that
    device. *)
Record world : Type := World {
  argv : list string;
  files : gmap string node;
  free : nat;
  stdout : list string;
  write_through : bool;
  stdout_device : device;
}.

Definition with_files (fs : gmap string node) (n : nat) (w : world) : world :=
  {| argv := argv w; files := fs; free := n; stdout := stdout w;
     write_through := write_through w; stdout_device := stdout_device w |}.

Definition with_stdout (out : list string) (w : world) : world :=
  {| argv := argv w; files := files w; free := free w; stdout := out;
     write_through := write_through w; stdout_device := stdout_device w |}.

(** A statement: runs in a world, changes it, and either completes
    with a value or raises. *)
Definition run (A : Type) : Type := world → world * (exn + A).

#[export] Instance run_ret : MRet run := λ A a w, (w, inr a).

#[export] Instance run_bind : MBind run := λ A B k m w,
  match m w with
  | (w', inr a) => k a w'
  | (w', inl e) => (w', inl e)
  end.

Definition raise {A} (e : exn) : run A := λ w, (w, inl e).

(** [sys.argv[i]] *)
Definition sys_argv (i : nat) : run string := λ w,
  match argv w !! i with
  | Some a => (w, inr a)
  | None => (w, inl IndexError)
  end.

(** [with open(path, 'r') as f: ... f.read()] *)
Definition read_text (path : string) : run string := λ w,
  match files w !! path with
  | None => (w, inl (FileNotFoundError path))
  | Some Directory => (w, inl (IsADirectoryError path))
  | Some (File r _ content) =>
      if r then (w, inr content) else (w, inl (PermissionError path))
  end.

(** [json.load] of the text read. *)
Definition load `{Runtime} (text : string) : run json :=
  match json_loads text with
  | inl msg => raise (ValueError msg)
  | inr data => mret data
  end.

(** [floatify(data)]: [data] is bound to the object the call mutated. *)
Definition call_floatify (data : json) : run json :=
  match floatify data with
  | (data', None) => mret data'
  | (_, Some e) => raise e
  end.

Definition set_file (path : string) (n : node) (w : world) : world :=
  with_files (<[path := n]> (files w)) (free w) w.

(** [open(path, 'w')]: creates the file or truncates it. *)
Definition open_w (path : string) : run () := λ w,
  match files w !! path with
  | None => (set_file path (File true true EmptyString) w, inr ())
  | Some Directory => (w, inl (IsADirectoryError path))
  | Some (File r wr _) =>
      if wr then (set_file path (File r wr EmptyString) w, inr ())
      else (w, inl (PermissionError path))
  end.

(** Writing [text] to the file just opened: all of it, or as much as
    the device accepts, and then the error. *)
Definition write (path : string) (text : string) : run () := λ w,
  match files w !! path with
  | Some (File r wr content) =>
      if decide (String.length text ≤ free w)%nat then
        (with_files (<[path := File r wr (content +:+ text)]> (files w))
                    (free w - String.length text) w, inr ())
      else
        (with_files
           (<[path := File r wr (content +:+ String.substring 0 (free w) text)]> (files w))
           0 w, inl NoSpaceError)
  | _ => (w, inl (FileNotFoundError path))
  end.

(** [print(line)]: the line is written to [sys.stdout].  With
    write-through output it goes to the device at once, and a device
    that does not take it makes [print] raise; with buffered output it
    stays in the buffer until the interpreter exits. *)
Definition print (line : string) : run () := λ w,
  match (if write_through w then device_error (stdout_device w) else None) with
  | Some e => (w, inl e)
  | None => (with_stdout (stdout w ++ [line]) w, inr ())
  end.

(** The body of the [try]. *)
Definition body `{Runtime} : run () :=
  path ← sys_argv 1;
  text ← read_text path;
  data ← load text;
  data ← call_floatify data;
  path ← sys_argv 1;
  open_w path;;
  write path (json_dumps data);;
  path ← sys_argv 1;
  print ("Processed " +:+ path).

(** How the module ends: after its last statement, or with an
    exception nobody caught. *)
Inductive termination : Type :=
  | Finished
  | Uncaught (e : exn).

(** A statement after which nothing follows and around which there is
    no [try]: the module ends as the statement does. *)
Definition finish (r : world * (exn + ())) : world * termination :=
  match r with
  | (w, inr _) => (w, Finished)
  | (w, inl e) => (w, Uncaught e)
  end.

(** [try: body except Exception as e: print(e)].  The [print] of the
    handler is not itself inside a [try]. *)
Definition main `{Runtime} (w : world) : world * termination :=
  match body w with
  | (w', inr _) => (w', Finished)
  | (w', inl e) =>
      if isinstance_Exception e then finish (print (str e) w')
      else (w', Uncaught e)
  end.

(** How the process ends, as its parent sees it. *)
Inductive status : Type :=
  | Exited (code : Z)
  | Killed (signal : Z).

(** At exit the interpreter flushes [sys.stdout].  The flush fails when
    lines written during the run are still in the buffer and the
    device does not take them. *)
Definition flush_fails (w w' : world) : bool :=
  negb (write_through w')
  && match device_error (stdout_device w') with Some _ => true | None => false end
  && (length (stdout w) <? length (stdout w'))%nat.

(** The status of the process that ran the script in [w]: 120 when the
    flush at exit fails, otherwise 0 after the last statement and 1
    after the traceback of an uncaught exception; an uncaught
    [KeyboardInterrupt] makes the interpreter kill itself with
    [SIGINT]. *)
Definition exit_status `{Runtime} (w : world) : status :=
  let '(w', t) := main w in
  match t with
  | Uncaught KeyboardInterrupt => Killed 2
  | Uncaught _ => if flush_fails w w' then Exited 120 else Exited 1
  | Finished => if flush_fails w w' then Exited 120 else Exited 0
  end.

(** A small runtime for closed examples: its parser accepts the
    literal [null] and rejects everything else the way [json.load]
    rejects text that does not start a value. *)
Definition null_runtime : Runtime := {|
  json_loads text :=
    if decide (text = "null") then inr JNull
    else inl "Expecting value: line 1 column 1 (char 0)";
  json_dumps _ := "null";
  repr path := "'" +:+ path +:+ "'";
|}.

(** A world with one file that is not JSON, and a standard output that
    takes what is printed. *)
Definition example_world (arg : string) : world := {|
  argv := ["floatify.py"; arg];
  files := {["notes.txt" := File true true "hello"]};
  free := 4096;
  stdout := [];
  write_through := false;
  stdout_device := Accepting;
|}.


(** ** Documents the walk has nothing to do on *)

(** No object of the document, at any depth, holds an [int] under a
    target key. *)
Fixpoint floatified (v : json) : bool :=
  match v with
  | JList elems => forallb floatified elems
  | JDict items =>
      forallb (λ kv, negb (is_target kv.1 && isinstance_int kv.2) && floatified kv.2) items
  | _ => true
  end.

(** A world with one file that [null_runtime] parses. *)
Definition null_world : world := {|
  argv := ["floatify.py"; "data.json"];
  files := {["data.json" := File true true "null"]};
  free := 4096;
  stdout := [];
  write_through := false;
  stdout_device := Accepting;
|}.

(** A runtime for closed examples whose parser answers [data]
    whatever the text. *)
Definition fixed_runtime (data : json) : Runtime := {|
  json_loads _ := inr data;
  json_dumps _ := "null";
  repr path := "'" +:+ path +:+ "'";
|}.

(** A world whose one file can be read but not written. *)
Definition read_only_world : world := {|
  argv := ["floatify.py"; "data.json"];
  files := {["data.json" := File true false "null"]};
  free := 4096;
  stdout := [];
  write_through := false;
  stdout_device := Accepting;
|}.

(** ** A document on disk, for closed examples *)

Definition float_same (x y : spec_float) : bool :=
  match x, y with
  | S754_zero s, S754_zero s' => Bool.eqb s s'
  | S754_infinity s, S754_infinity s' => Bool.eqb s s'
  | S754_nan, S754_nan => true
  | S754_finite s m e, S754_finite s' m' e' => Bool.eqb s s' && (m =? m')%positive && (e =? e')
  | _, _ => false
  end.

Fixpoint json_eqb (a b : json) {struct a} : bool :=
  match a, b with
  | JNull, JNull => true
  | JBool x, JBool y => Bool.eqb x y
  | JInt x, JInt y => x =? y
  | JFloat x, JFloat y => float_same x y
  | JStr x, JStr y => String.eqb x y
  | JList l, JList m =>
      (fix all l m :=
         match l, m with
         | [], [] => true
         | x :: l', y :: m' => json_eqb x y && all l' m'
         | _, _ => false
         end) l m
  | JDict l, JDict m =>
      (fix all (l m : dict) :=
         match l, m with
         | [], [] => true
         | (k, x) :: l', (k', y) :: m' => String.eqb k k' && json_eqb x y && all l' m'
         | _, _ => false
         end) l m
  | _, _ => false
  end.

Definition quote : string := String (Ascii.ascii_of_nat 34) EmptyString.
Definition newline : string := String (Ascii.ascii_of_nat 10) EmptyString.

(** [{"w": 1920}] and what the walk makes of it, [{"w": 1920.0}]. *)
Definition sample : json := JDict [("w", JInt 1920)].
Definition sample_floats : json :=
  JDict [("w", JFloat (S754_finite false 8444249301319680 (-42)))].

(** The text [{"w": 1920}], as a file may hold it. *)
Definition sample_text : string := "{" +:+ quote +:+ "w" +:+ quote +:+ ": 1920}".

(** The text of an object with the one key [w], as
    [json.dump(..., indent=4)] lays it out. *)
Definition dumped (value : string) : string :=
  "{" +:+ newline +:+ "    " +:+ quote +:+ "w" +:+ quote +:+ ": " +:+ value
      +:+ newline +:+ "}".

(** A runtime for closed examples that knows the two documents above:
    it parses their texts and serialises them, [1920] as [1920] and
    [1920.0] as [1920.0]. *)
Definition sample_runtime : Runtime := {|
  json_loads text :=
    if decide (text = sample_text) then inr sample
    else if decide (text = dumped "1920") then inr sample
    else if decide (text = dumped "1920.0") then inr sample_floats
    else inl "Expecting value: line 1 column 1 (char 0)";
  json_dumps data :=
    if json_eqb data sample_floats then dumped "1920.0"
    else if json_eqb data sample then dumped "1920"
    else "null";
  repr path := "'" +:+ path +:+ "'";
|}.

(** A world with the document in [data.json], and another file. *)
Definition sample_world : world := {|
  argv := ["floatify.py"; "data.json"];
  files := {["data.json" := File true true sample_text;
             "notes.txt" := File true true "hello"]};
  free := 4096;
  stdout := [];
  write_through := false;
  stdout_device := Accepting;
|}.

(** * Properties *)

(** ** Conversion of integers to binary64 *)

Module FloatFacts.
Import Float.

Lemma digits2_bounds p :
  2 ^ (Zpos (digits2_pos p) - 1) ≤ Zpos p < 2 ^ Zpos (digits2_pos p).
Proof.
  induction p as [p IH|p IH|]; simpl digits2_pos; [| |done].
  all: rewrite Pos2Z.inj_succ, Z.pow_succ_r by lia.
  all: replace (Z.succ (Zpos (digits2_pos p)) - 1) with (Z.succ (Zpos (digits2_pos p) - 1)) by lia.
  all: rewrite Z.pow_succ_r by lia.
  all: destruct IH as [IH1 IH2]; revert IH1 IH2.
  all: generalize (2 ^ (Z.pos (digits2_pos p) - 1)) (2 ^ Z.pos (digits2_pos p)); lia.
Qed.

Lemma digits2_unique p d :
  2 ^ (d - 1) ≤ Zpos p < 2 ^ d → Zpos (digits2_pos p) = d.
Proof.
  intros [Hlo Hhi]. pose proof (digits2_bounds p) as [Hlo' Hhi'].
  assert (0 < d).
  { destruct (decide (0 < d)); [done|]. rewrite Z.pow_neg_r in Hlo by lia.
    assert (d = 0) as -> by (destruct (decide (d = 0)); [done|]; rewrite Z.pow_neg_r in Hhi by lia; lia).
    simpl in Hhi. lia. }
  destruct (Z.lt_trichotomy (Zpos (digits2_pos p)) d) as [Hlt|[?|Hgt]]; [|done|].
  - assert (2 ^ Zpos (digits2_pos p) ≤ 2 ^ (d - 1)) by (apply Z.pow_le_mono_r; lia). lia.
  - assert (2 ^ d ≤ 2 ^ (Zpos (digits2_pos p) - 1)) by (apply Z.pow_le_mono_r; lia). lia.
Qed.

Lemma iter_xO p d : Zpos (Pos.iter xO p d) = Zpos p * 2 ^ Zpos d.
Proof.
  induction d as [|d IH] using Pos.peano_ind.
  - simpl. lia.
  - rewrite Pos.iter_succ, Pos2Z.inj_xO, IH, Pos2Z.inj_succ, Z.pow_succ_r by lia. lia.
Qed.

Lemma iter_pos_nat {A} (f : A → A) n : ∀ x, SpecFloat.iter_pos f n x = Nat.iter (Pos.to_nat n) f x.
Proof.
  induction n as [n IH|n IH|]; intros x; simpl SpecFloat.iter_pos; [| |done].
  - rewrite !IH, Pos2Nat.inj_xI. rewrite <- Nat.iter_add, <- Nat.iter_succ_r. f_equal. lia.
  - rewrite !IH, Pos2Nat.inj_xO. rewrite <- Nat.iter_add. f_equal. lia.
Qed.

Lemma shr_1_spec m r s :
  0 ≤ m → shr_1 {| shr_m := m; shr_r := r; shr_s := s |} =
          {| shr_m := m / 2; shr_r := Z.odd m; shr_s := r || s |}.
Proof.
  intros Hm. rewrite <- Z.div2_div. by destruct m as [|[p|p|]|p].
Qed.

Lemma shr_iter m k :
  0 ≤ m →
  ∃ s, Nat.iter (S k) shr_1 {| shr_m := m; shr_r := false; shr_s := false |} =
       {| shr_m := m / 2 ^ Z.of_nat (S k); shr_r := Z.odd (m / 2 ^ Z.of_nat k); shr_s := s |}.
Proof.
  intros Hm. induction k as [|k [s IH]].
  - eexists. rewrite Nat.iter_succ. unfold Nat.iter at 1; cbn [nat_rect].
    rewrite shr_1_spec by done. by rewrite Z.div_1_r.
  - eexists. rewrite Nat.iter_succ, IH, shr_1_spec by (apply Z.div_pos; lia).
    f_equal. rewrite Z.div_div by lia. f_equal.
    rewrite (Nat2Z.inj_succ (S k)), Z.pow_succ_r by lia. lia.
Qed.

Lemma fexp_eq d : -1021 ≤ d → fexp prec emax d = d - 53.
Proof. unfold fexp, emin, prec, emax. lia. Qed.

(** Rounding a mantissa that already has 53 digits changes nothing. *)
Lemma round_aux_canonical sx m e :
  Zpos (digits2_pos m) = 53 → -1074 ≤ e ≤ 971 →
  binary_round_aux prec emax sx (Zpos m) e loc_Exact = S754_finite sx m e.
Proof.
  intros Hd He. unfold binary_round_aux, shr_fexp. cbn [Zdigits2 shr_record_of_loc].
  rewrite Hd, fexp_eq by lia. replace (53 + e - 53 - e) with 0 by lia.
  cbn [shr shr_m loc_of_shr_record round_nearest_even Zdigits2 shr_record_of_loc].
  rewrite Hd, fexp_eq by lia. replace (53 + e - 53 - e) with 0 by lia.
  cbn [shr shr_m]. unfold prec, emax.
  destruct (Z.leb_spec e (1024 - 53)); [done|lia].
Qed.

Lemma round_small sx mx :
  Zpos (digits2_pos mx) ≤ 53 →
  ∃ m e, binary_round prec emax sx mx 0 = S754_finite sx m e ∧
         e ≤ 0 ∧ Zpos m = Zpos mx * 2 ^ (- e).
Proof.
  intros Hd. unfold binary_round. rewrite fexp_eq by lia. unfold shl_align.
  pose proof (digits2_bounds mx) as Hb.
  destruct (Zpos (digits2_pos mx) + 0 - 53 - 0) as [|q|q] eqn:Hq; [|lia|].
  - exists mx, 0. rewrite round_aux_canonical by lia. split; [done|]. simpl. lia.
  - exists (Pos.iter xO mx q), (Zpos (digits2_pos mx) + 0 - 53).
    assert (Zpos q = 53 - Zpos (digits2_pos mx)) as Hq' by lia.
    rewrite round_aux_canonical; [|apply digits2_unique; rewrite iter_xO|lia].
    + split; [done|]. split; [lia|]. rewrite iter_xO. do 2 f_equal. lia.
    + rewrite Hq'. destruct Hb as [Hlo Hhi].
      replace (53 - 1) with (Zpos (digits2_pos mx) - 1 + (53 - Zpos (digits2_pos mx))) by lia.
      replace 53 with (Zpos (digits2_pos mx) + (53 - Zpos (digits2_pos mx))) at 4 by lia.
      rewrite !Z.pow_add_r by lia.
      assert (0 < 2 ^ (53 - Z.pos (digits2_pos mx))) by (apply Z.pow_pos_nonneg; lia).
      split; [apply Z.mul_le_mono_nonneg_r|apply Z.mul_lt_mono_pos_r]; lia.
Qed.

Lemma round_nearest_even_cases m l :
  round_nearest_even m l = m ∨ round_nearest_even m l = m + 1.
Proof. destruct l as [|[]]; simpl; try destruct (Z.even m); auto. Qed.

Lemma div_pow2_bounds mx k :
  Zpos (digits2_pos mx) = 53 + k → 0 ≤ k →
  2 ^ 52 ≤ Zpos mx / 2 ^ k < 2 ^ 53.
Proof.
  intros Hd Hk. pose proof (digits2_bounds mx) as [Hlo Hhi]. rewrite Hd in *.
  assert (0 < 2 ^ k) by (apply Z.pow_pos_nonneg; lia).
  replace (53 + k - 1) with (52 + k) in Hlo by lia.
  rewrite Z.pow_add_r in Hlo, Hhi by lia. split.
  - apply Z.div_le_lower_bound; lia.
  - apply Z.div_lt_upper_bound; lia.
Qed.

Lemma shr_fexp_first mx k :
  Zpos (digits2_pos mx) = 53 + Zpos k →
  ∃ s, shr_fexp prec emax (Zpos mx) 0 loc_Exact =
         ({| shr_m := Zpos mx / 2 ^ Zpos k;
             shr_r := Z.odd (Zpos mx / 2 ^ (Zpos k - 1));
             shr_s := s |}, Zpos k).
Proof.
  intros Hd. unfold shr_fexp. cbn [Zdigits2 shr_record_of_loc].
  rewrite fexp_eq by lia.
  replace (Zpos (digits2_pos mx) + 0 - 53 - 0) with (Zpos k) by lia.
  cbn [shr]. rewrite iter_pos_nat.
  destruct (Pos2Nat.is_succ k) as [k' Hk']. rewrite Hk'.
  destruct (shr_iter (Zpos mx) k' ltac:(lia)) as [s ->].
  assert (Z.of_nat (S k') = Zpos k) as -> by lia.
  assert (Z.of_nat k' = Zpos k - 1) as -> by lia.
  by exists s.
Qed.

Lemma shr_fexp_second m e :
  2 ^ 52 ≤ m ≤ 2 ^ 53 → -1074 ≤ e →
  shr_fexp prec emax m e loc_Exact =
    if m =? 2 ^ 53
    then ({| shr_m := 2 ^ 52; shr_r := false; shr_s := false |}, e + 1)
    else ({| shr_m := m; shr_r := false; shr_s := false |}, e).
Proof.
  intros Hm He. unfold shr_fexp. cbn [shr_record_of_loc].
  destruct (Z.eqb_spec m (2 ^ 53)) as [->|Hne].
  - change (Zdigits2 (2 ^ 53)) with 54.
    rewrite fexp_eq by lia. by replace (54 + e - 53 - e) with 1 by lia.
  - destruct m as [|p|p]; [lia| |lia]. cbn [Zdigits2].
    rewrite (digits2_unique p 53) by (change (53 - 1) with 52; lia).
    rewrite fexp_eq by lia. by replace (53 + e - 53 - e) with 0 by lia.
Qed.

(** Rounding a mantissa of [53 + k] digits: [k] bits are shifted out,
    the last of them decides (with the parity and the sticky bit)
    whether the mantissa is incremented, and an increment to [2^53]
    costs one more shift. *)
Lemma round_large sx mx k :
  Zpos (digits2_pos mx) = 53 + Zpos k →
  ∃ s,
    let M := Zpos mx / 2 ^ Zpos k in
    let r := Z.odd (Zpos mx / 2 ^ (Zpos k - 1)) in
    let m2 := round_nearest_even M
                (loc_of_shr_record {| shr_m := M; shr_r := r; shr_s := s |}) in
    binary_round prec emax sx mx 0 =
      if m2 =? 2 ^ 53 then
        if Zpos k + 1 <=? 971 then S754_finite sx (2 ^ 52)%positive (Zpos k + 1)
        else S754_infinity sx
      else
        if Zpos k <=? 971 then S754_finite sx (Z.to_pos m2) (Zpos k)
        else S754_infinity sx.
Proof.
  intros Hd. pose proof (div_pow2_bounds mx (Zpos k) Hd ltac:(lia)) as HM.
  unfold binary_round. rewrite fexp_eq by lia. unfold shl_align.
  replace (Zpos (digits2_pos mx) + 0 - 53 - 0) with (Zpos k) by lia.
  cbn match. unfold binary_round_aux.
  destruct (shr_fexp_first mx k Hd) as [s ->]. exists s. cbn zeta. cbn [shr_m].
  set (M := Zpos mx / 2 ^ Zpos k) in *.
  set (l := loc_of_shr_record _).
  pose proof (round_nearest_even_cases M l) as Hm2.
  set (m2 := round_nearest_even M l) in *.
  rewrite shr_fexp_second by lia.
  destruct (Z.eqb_spec m2 (2 ^ 53)) as [Heq|Hne]; cbn [shr_m].
  - done.
  - destruct m2 as [|p|p]; [lia|done|lia].
Qed.

Lemma binary_round_infinity sx p :
  is_infinity (binary_round prec emax sx p 0) = true ↔ overflow_threshold ≤ Zpos p.
Proof.
  unfold overflow_threshold.
  pose proof (digits2_bounds p) as [Hlo Hhi].
  destruct (Z.le_gt_cases (Zpos (digits2_pos p)) 53) as [Hd|Hd].
  { destruct (round_small sx p Hd) as (m & e & -> & _). simpl.
    assert (2 ^ Zpos (digits2_pos p) ≤ 2 ^ 53) by (apply Z.pow_le_mono_r; lia).
    split; [done|lia]. }
  destruct (Zpos (digits2_pos p) - 53) as [|k|k] eqn:Hk; [lia| |lia].
  assert (Zpos (digits2_pos p) = 53 + Zpos k) as Hd' by lia.
  destruct (round_large sx p k Hd') as [s Hr]. cbn zeta in Hr. rewrite Hr. clear Hr.
  rewrite Hd' in Hlo, Hhi. replace (53 + Zpos k - 1) with (52 + Zpos k) in Hlo by lia.
  set (l := loc_of_shr_record _).
  destruct (Z.lt_trichotomy (Zpos k) 971) as [Hlt|[Heq|Hgt]].
  - (* at most 1023 digits *)
    assert (2 ^ (53 + Zpos k) ≤ 2 ^ 1023) by (apply Z.pow_le_mono_r; lia).
    rewrite !(proj2 (Z.leb_le _ _)) by lia.
    destruct (_ =? _); cbn [is_infinity]; (split; [discriminate|lia]).
  - (* 1024 digits *)
    assert (k = 971%positive) as -> by lia. clear Heq Hk. subst l. change (971 - 1) with 970.
    change (52 + 971) with 1023 in Hlo. change (53 + 971) with 1024 in Hhi.
    pose proof (Z.div_div (Zpos p) (2 ^ 970) 2 ltac:(lia) ltac:(lia)) as HM.
    change (2 ^ 970 * 2) with (2 ^ 971) in HM. rewrite <- HM.
    set (Q := Zpos p / 2 ^ 970).
    assert (2 ^ 53 ≤ Q < 2 ^ 54) as HQ.
    { split; [apply Z.div_le_lower_bound|apply Z.div_lt_upper_bound]; lia. }
    assert (2 ^ 1024 - 2 ^ 970 ≤ Zpos p ↔ Q = 2 ^ 54 - 1) as ->.
    { split.
      - intros Hp. assert (2 ^ 54 - 1 ≤ Q); [|lia].
        apply Z.div_le_lower_bound; lia.
      - intros HQ'. pose proof (Z.mul_div_le (Zpos p) (2 ^ 970) ltac:(lia)). fold Q in H.
        rewrite HQ' in H. lia. }
    pose proof (Z.div2_odd Q) as HQ2. rewrite Z.div2_div in HQ2.
    change (971 + 1 <=? 971) with false. change (971 <=? 971) with true.
    destruct (Z.odd Q) eqn:Hodd; simpl in HQ2.
    + destruct (Z.eq_dec (Q / 2) (2 ^ 53 - 1)) as [HM'|HM'].
      * rewrite HM'. assert (Q = 2 ^ 54 - 1) by lia.
        by destruct s.
      * assert (Q / 2 < 2 ^ 53 - 1) by lia.
        pose proof (round_nearest_even_cases (Q / 2)
          (loc_of_shr_record {| shr_m := Q / 2; shr_r := true; shr_s := s |})).
        destruct (Z.eqb_spec (round_nearest_even (Q / 2)
          (loc_of_shr_record {| shr_m := Q / 2; shr_r := true; shr_s := s |})) (2 ^ 53));
          cbn [is_infinity]; [lia|]. split; [discriminate|lia].
    + assert (round_nearest_even (Q / 2)
          (loc_of_shr_record {| shr_m := Q / 2; shr_r := false; shr_s := s |}) = Q / 2) as ->
        by (by destruct s).
      destruct (Z.eqb_spec (Q / 2) (2 ^ 53)); cbn [is_infinity]; [lia|].
      split; [discriminate|lia].
  - (* more than 1024 digits *)
    assert (2 ^ 1024 ≤ 2 ^ (52 + Zpos k)) by (apply Z.pow_le_mono_r; lia).
    rewrite !(proj2 (Z.leb_gt _ _)) by lia.
    destruct (_ =? _); cbn [is_infinity]; (split; [lia|reflexivity]).
Qed.

Lemma of_int_unfold n :
  of_int n =
    if is_infinity (binary_normalize prec emax n 0 false) then inl OverflowError
    else inr (binary_normalize prec emax n 0 false).
Proof. unfold of_int. by destruct (binary_normalize prec emax n 0 false). Qed.

(** [float(n)] raises [OverflowError] exactly from the threshold on. *)
Lemma of_int_overflow n :
  of_int n = inl OverflowError ↔ overflow_threshold ≤ Z.abs n.
Proof.
  rewrite of_int_unfold. destruct n as [|p|p]; cbn [binary_normalize].
  all: try change (Z.abs (Zpos p)) with (Zpos p).
  all: try change (Z.abs (Zneg p)) with (Zpos p).
  - split; [done|]. unfold overflow_threshold. lia.
  - rewrite <- binary_round_infinity with (sx := false).
    destruct (is_infinity _); split; done.
  - rewrite <- binary_round_infinity with (sx := true).
    destruct (is_infinity _); split; done.
Qed.

Lemma of_int_finite n :
  Z.abs n < overflow_threshold → ∃ x, of_int n = inr x.
Proof.
  intros Hn. destruct (of_int n) as [[]|x] eqn:Hx; eauto.
  all: try (rewrite of_int_unfold in Hx; by destruct (is_infinity _)).
  apply of_int_overflow in Hx. lia.
Qed.

(** Integers of magnitude up to [2^53] are converted exactly. *)
Lemma of_int_exact n :
  Z.abs n ≤ 2 ^ 53 → ∃ x, of_int n = inr x ∧ eq_int x n = true.
Proof.
  intros Hn. destruct (Z.eq_dec (Z.abs n) (2 ^ 53)) as [Heq|Hne].
  { destruct (Z.abs_eq_or_opp n) as [H|H]; rewrite H in Heq.
    - subst n. by eexists.
    - assert (n = - 2 ^ 53) as -> by lia. by eexists. }
  rewrite of_int_unfold. destruct n as [|p|p]; cbn [binary_normalize] in *.
  all: try change (Z.abs (Zpos p)) with (Zpos p) in *.
  all: try change (Z.abs (Zneg p)) with (Zpos p) in *.
  - by eexists.
  - pose proof (digits2_bounds p) as [Hlo _].
    assert (Zpos (digits2_pos p) ≤ 53) as Hd.
    { destruct (Z.le_gt_cases (Zpos (digits2_pos p)) 53); [done|].
      assert (2 ^ 53 ≤ 2 ^ (Zpos (digits2_pos p) - 1)) by (apply Z.pow_le_mono_r; lia). lia. }
    destruct (round_small false p Hd) as (m & e & -> & He & Hm).
    eexists; split; [done|]. cbn [eq_int cond_Zopp].
    rewrite Hm, Z.max_l, Z.max_r by lia. apply Z.eqb_eq. simpl (2 ^ 0). lia.
  - pose proof (digits2_bounds p) as [Hlo _].
    assert (Zpos (digits2_pos p) ≤ 53) as Hd.
    { destruct (Z.le_gt_cases (Zpos (digits2_pos p)) 53); [done|].
      assert (2 ^ 53 ≤ 2 ^ (Zpos (digits2_pos p) - 1)) by (apply Z.pow_le_mono_r; lia). lia. }
    destruct (round_small true p Hd) as (m & e & -> & He & Hm).
    eexists; split; [done|]. cbn [eq_int cond_Zopp].
    rewrite Hm, Z.max_l, Z.max_r by lia. apply Z.eqb_eq. simpl (2 ^ 0). lia.
Qed.

End FloatFacts.

(** ** The loops, one turn at a time *)

Lemma floatify_JList elems :
  floatify (JList elems) = (JList (for_elems floatify elems).1, (for_elems floatify elems).2).
Proof. simpl. by destruct (for_elems floatify elems). Qed.

Lemma floatify_JDict items :
  floatify (JDict items) = (JDict (for_items floatify items).1, (for_items floatify items).2).
Proof. simpl. by destruct (for_items floatify items). Qed.

Lemma for_elems_cons (f : json → outcome json) i rest :
  for_elems f (i :: rest) =
    match f i with
    | (i', Some e) => (i' :: rest, Some e)
    | (i', None) => ((i' :: (for_elems f rest).1), (for_elems f rest).2)
    end.
Proof. simpl. destruct (f i) as [i' [e|]]; [done|]. by destruct (for_elems f rest). Qed.

Lemma for_items_cons k v rest :
  for_items floatify ((k, v) :: rest) =
    match visit (Key k) v with
    | (v', Some e) => ((k, v') :: rest, Some e)
    | (v', None) =>
        ((k, v') :: (for_items floatify rest).1, (for_items floatify rest).2)
    end.
Proof.
  simpl. destruct (is_target k && isinstance_int v).
  - destruct (float v); [done|]. by destruct (for_items floatify rest).
  - destruct (floatify v) as [v' [e|]]; [done|]. by destruct (for_items floatify rest).
Qed.

(** [floatify] never turns a value into an [int], nor an [int] into
    something else: only the loop over a dict's items does the latter. *)
Lemma isinstance_int_floatify v : isinstance_int (floatify v).1 = isinstance_int v.
Proof.
  destruct v; try done.
  - by rewrite floatify_JList.
  - by rewrite floatify_JDict.
Qed.

Lemma visit_twice s v :
  floatify (floatify v).1 = floatify v →
  visit s (visit s v).1 = visit s v.
Proof.
  intros IH. destruct s as [k|i]; [|done]. unfold visit.
  destruct (is_target k && isinstance_int v) eqn:Hkv.
  - destruct (float v) as [e|x] eqn:Hf; simpl.
    + by rewrite Hkv, Hf.
    + by rewrite andb_false_r.
  - rewrite isinstance_int_floatify, Hkv. done.
Qed.

Lemma for_elems_twice elems :
  Forall (λ i, floatify (floatify i).1 = floatify i) elems →
  for_elems floatify (for_elems floatify elems).1 = for_elems floatify elems.
Proof.
  induction 1 as [|i rest Hi _ IH]; [done|].
  rewrite for_elems_cons. destruct (floatify i) as [i' [e|]] eqn:Hfi;
    cbn [fst snd] in *; rewrite for_elems_cons, Hi; [done|].
  by rewrite IH.
Qed.

Lemma for_items_twice (items : dict) :
  Forall (λ kv, floatify (floatify kv.2).1 = floatify kv.2) items →
  for_items floatify (for_items floatify items).1 = for_items floatify items.
Proof.
  induction 1 as [|[k v] rest Hv _ IH]; [done|]. simpl in Hv.
  rewrite for_items_cons.
  pose proof (visit_twice (Key k) v Hv) as Hvv.
  destruct (visit (Key k) v) as [v' [e|]] eqn:Hkv;
    cbn [fst snd] in *; rewrite for_items_cons, Hvv; [done|].
  by rewrite IH.
Qed.

(** ** The loop over a dict: stores by key and stores by position *)

Lemma dict_set_visited k x (pre rest : dict) v :
  k ∉ pre.*1 →
  dict_set k x (pre ++ (k, v) :: rest) = pre ++ (k, x) :: rest.
Proof.
  induction pre as [|[k' v'] pre IH]; simpl.
  - intros _. by rewrite decide_True.
  - intros [Hne Hk]%not_elem_of_cons. by rewrite decide_False, IH.
Qed.

Lemma items_loop_for_items f (todo : dict) : ∀ pre : dict,
  NoDup (pre ++ todo).*1 →
  items_loop f (length todo) (length pre) (pre ++ todo)
    = (pre ++ (for_items f todo).1, (for_items f todo).2).
Proof.
  induction todo as [|[k v] rest IH]; intros pre Hnd; [done|].
  assert (k ∉ pre.*1) as Hk.
  { rewrite fmap_app, fmap_cons in Hnd. apply NoDup_app in Hnd as (_ & Hd & _).
    intros Hin. apply (Hd _ Hin). by left. }
  assert (∀ x, NoDup ((pre ++ [(k, x)]) ++ rest).*1) as Hnd'.
  { intros x. by rewrite <- (assoc_L (++)), !fmap_app, !fmap_cons in *. }
  assert (∀ x, items_loop f (length rest) (S (length pre)) (pre ++ (k, x) :: rest)
               = (pre ++ (k, x) :: (for_items f rest).1, (for_items f rest).2)) as Hnext.
  { intros x. specialize (IH (pre ++ [(k, x)]) (Hnd' x)).
    rewrite length_app, Nat.add_1_r, <- !(assoc_L (++)) in IH. done. }
  cbn [length items_loop for_items]. rewrite list_lookup_middle by done.
  destruct (is_target k && isinstance_int v).
  - destruct (float v) as [e|x]; [done|].
    rewrite dict_set_visited, Hnext by done. by destruct (for_items f rest).
  - destruct (f v) as [v' [e|]]; rewrite dict_set_visited by done; [done|].
    rewrite Hnext. by destruct (for_items f rest).
Qed.

(** On a dict, whose keys are unique, the loop that stores by key does
    what [for_items] does item by item. *)
Lemma for_items_in_place_correct f (items : dict) :
  NoDup items.*1 → for_items_in_place f items = for_items f items.
Proof.
  intros Hnd. unfold for_items_in_place.
  pose proof (items_loop_for_items f items [] Hnd) as Hloop.
  cbn [length app] in Hloop. rewrite Hloop. by destruct (for_items f items).
Qed.

(** ** Idempotence *)

(** C4: running [floatify] on the document a first run left behind
    leaves the same document again and ends the same way; a run that
    raised raises again without any further change.  A float under a
    target key, such as a first run stores, is left as it is. *)
Theorem floatify_idempotent (doc : json) :
  floatify (floatify doc).1 = floatify doc ∧
  ∀ k x, floatify (JDict [(k, JFloat x)]) = (JDict [(k, JFloat x)], None).
Proof.
  split; [|by intros k x; simpl; rewrite andb_false_r].
  induction doc as [| | | | |elems IH|items IH] using json_ind; try done.
  - rewrite !floatify_JList; cbn [fst snd]. rewrite floatify_JList.
    by rewrite for_elems_twice.
  - rewrite !floatify_JDict; cbn [fst snd]. rewrite floatify_JDict.
    by rewrite for_items_twice.
Qed.

(** ** What a successful run leaves at each position *)

Lemma for_items_child k (items : dict) v :
  (for_items floatify items).2 = None →
  dict_get k items = Some v →
  (visit (Key k) v).2 = None ∧
  dict_get k (for_items floatify items).1 = Some (visit (Key k) v).1.
Proof.
  induction items as [|[k' v'] rest IH]; [done|].
  rewrite for_items_cons.
  destruct (visit (Key k') v') as [v'' [e|]] eqn:Hv'; [done|].
  cbn [fst snd dict_get]. intros Hrest.
  destruct (decide (k' = k)) as [->|Hne].
  - intros Hv; injection Hv as <-. by rewrite Hv'.
  - auto.
Qed.

Lemma for_elems_child i (elems : list json) v :
  (for_elems floatify elems).2 = None →
  elems !! i = Some v →
  (floatify v).2 = None ∧
  (for_elems floatify elems).1 !! i = Some (floatify v).1.
Proof.
  revert i. induction elems as [|v' rest IH]; intros i; [done|].
  rewrite for_elems_cons.
  destruct (floatify v') as [v'' [e|]] eqn:Hv'; [done|].
  cbn [fst snd]. intros Hrest. destruct i as [|i]; simpl.
  - intros [= <-]. by rewrite Hv'.
  - auto.
Qed.

Lemma floatify_child s obj v :
  (floatify obj).2 = None →
  child s obj = Some v →
  (visit s v).2 = None ∧ child s (floatify obj).1 = Some (visit s v).1.
Proof.
  destruct s as [k|i], obj; try done.
  - rewrite floatify_JDict. apply for_items_child.
  - rewrite floatify_JList. apply for_elems_child.
Qed.

(** A value that has a child is a container, and a container is never
    stored over: the loop hands it to [floatify]. *)
Lemma visit_parent s s' c v : child s' c = Some v → visit s c = floatify c.
Proof.
  intros Hc. destruct s as [k|i]; [|done]. unfold visit.
  destruct c, s'; try done; by rewrite andb_false_r.
Qed.

Lemma visit_at_cons s s' p v : visit_at (s :: s' :: p) v = visit_at (s' :: p) v.
Proof. done. Qed.

Lemma floatify_at_path p : ∀ obj v,
  (floatify obj).2 = None →
  at_path p obj = Some v →
  (visit_at p v).2 = None ∧ at_path p (floatify obj).1 = Some (visit_at p v).1.
Proof.
  induction p as [|s p IH]; intros obj v Hok.
  - by intros [= <-].
  - simpl at_path. destruct (child s obj) as [c|] eqn:Hc; [|done]. simpl.
    destruct (floatify_child _ _ _ Hok Hc) as [Hok' ->]. simpl.
    destruct p as [|s' p].
    + by intros [= <-].
    + intros Hv. rewrite visit_at_cons.
      assert (visit s c = floatify c) as Hsc.
      { simpl in Hv. destruct (child s' c) eqn:?; [|done]. by eapply visit_parent. }
      rewrite Hsc in *. by apply IH.
Qed.

Lemma visit_at_snoc p s v : visit_at (p ++ [s]) v = visit s v.
Proof. unfold visit_at. by rewrite last_snoc. Qed.

(** ** What any run, raising or not, leaves at each position *)

(** When the walk raises, the positions it had not reached yet hold
    what they held; those it had reached hold what the turn of the
    loop left there. *)
Lemma for_items_child_any k (items : dict) v :
  dict_get k items = Some v →
  dict_get k (for_items floatify items).1 = Some v ∨
  dict_get k (for_items floatify items).1 = Some (visit (Key k) v).1.
Proof.
  induction items as [|[k' v'] rest IH]; [done|].
  rewrite for_items_cons.
  destruct (visit (Key k') v') as [v'' [e|]] eqn:Hv'; cbn [fst snd dict_get];
    (destruct (decide (k' = k)) as [->|Hne];
      [intros Hv; injection Hv as <-; right; by rewrite Hv' | auto]).
Qed.

Lemma for_elems_child_any i (elems : list json) v :
  elems !! i = Some v →
  (for_elems floatify elems).1 !! i = Some v ∨
  (for_elems floatify elems).1 !! i = Some (floatify v).1.
Proof.
  revert i. induction elems as [|v' rest IH]; intros i; [done|].
  rewrite for_elems_cons.
  destruct (floatify v') as [v'' [e|]] eqn:Hv'; cbn [fst snd];
    (destruct i as [|i]; simpl;
      [intros Hv; injection Hv as <-; right; by rewrite Hv' | auto]).
Qed.

Lemma floatify_child_any s obj v :
  child s obj = Some v →
  child s (floatify obj).1 = Some v ∨ child s (floatify obj).1 = Some (visit s v).1.
Proof.
  destruct s as [k|i], obj; try done.
  - rewrite floatify_JDict. apply for_items_child_any.
  - rewrite floatify_JList. apply for_elems_child_any.
Qed.

Lemma floatify_at_path_any p : ∀ obj v,
  at_path p obj = Some v →
  at_path p (floatify obj).1 = Some v ∨
  at_path p (floatify obj).1 = Some (visit_at p v).1.
Proof.
  induction p as [|s p IH]; intros obj v.
  - intros Hv; injection Hv as <-. by right.
  - simpl at_path. destruct (child s obj) as [c|] eqn:Hc; [|done]. simpl.
    intros Hv. destruct (floatify_child_any _ _ _ Hc) as [-> | ->]; simpl; [by left|].
    destruct p as [|s' p]; [injection Hv as <-; by right|].
    rewrite visit_at_cons.
    assert (visit s c = floatify c) as ->.
    { simpl in Hv. destruct (child s' c) eqn:?; [|done]. by eapply visit_parent. }
    by apply IH.
Qed.

(** ** Integers under target keys *)

(** [float()] of the integer [2^53 + 1] is [2^53]: the float stored
    under the key does not have the magnitude of the integer it
    replaces.  And [float()] of [2^1024] raises: the integer stays. *)
Lemma target_int_rounded :
  floatify (JDict [("w", JInt 9007199254740993)]) =
    (JDict [("w", JFloat (S754_finite false 4503599627370496 1))], None) ∧
  Float.eq_int (S754_finite false 4503599627370496 1) 9007199254740993 = false ∧
  Float.eq_int (S754_finite false 4503599627370496 1) 9007199254740992 = true ∧
  floatify (JDict [("h", JInt (2 ^ 1024))]) =
    (JDict [("h", JInt (2 ^ 1024))], Some OverflowError).
Proof. by vm_compute. Qed.

(** C1, as the code has it: when the walk completes, every integer [V]
    found under a target key [K] of an object at any depth has been
    replaced, in place, by [float(V)]; that float has the magnitude of
    [V] whenever [|V| ≤ 2^53].  Scenarios 1 and 2 come out as the
    specification lists them. *)
Theorem floatify_target_int :
  (∀ (doc : json) (p : list step) (K : string) (V : Z),
     (floatify doc).2 = None →
     is_target K = true →
     at_path (p ++ [Key K]) doc = Some (JInt V) →
     ∃ x, Float.of_int V = inr x ∧
          at_path (p ++ [Key K]) (floatify doc).1 = Some (JFloat x) ∧
          (Z.abs V ≤ 2 ^ 53 → Float.eq_int x V = true)) ∧
  floatify scenario1 = (scenario1_floats, None) ∧
  floatify scenario2 = (scenario2_floats, None).
Proof.
  split; [|by vm_compute].
  intros doc p K V Hok HK Hv.
  destruct (floatify_at_path _ _ _ Hok Hv) as [Hok' Hv'].
  rewrite visit_at_snoc in Hok', Hv'. unfold visit in Hok', Hv'.
  rewrite HK in Hok', Hv'. cbn [isinstance_int andb] in Hok', Hv'.
  unfold float in *. cbn [int_of] in *.
  destruct (Float.of_int V) as [e|x] eqn:HV; [done|].
  exists x. split_and!; [done..|].
  intros HVs. destruct (FloatFacts.of_int_exact V HVs) as (x' & Hx' & Heq).
  congruence.
Qed.

Lemma floatify_target_int_witness :
  (floatify scenario2).2 = None ∧
  is_target "st" = true ∧
  at_path ([Key "layers"; Index 0] ++ [Key "st"]) scenario2 = Some (JInt 5) ∧
  ∃ x, Float.of_int 5 = inr x ∧
       at_path ([Key "layers"; Index 0] ++ [Key "st"]) (floatify scenario2).1
         = Some (JFloat x) ∧
       (Z.abs 5 ≤ 2 ^ 53 → Float.eq_int x 5 = true).
Proof.
  split; [reflexivity|]. split; [reflexivity|]. split; [reflexivity|].
  apply (proj1 floatify_target_int scenario2 [Key "layers"; Index 0] "st" 5);
    reflexivity.
Defined.

(** ** Booleans under target keys *)

(** Scenario 3 on the code: [isinstance(True, int)] holds, so the
    value is replaced by [float(True)], which is [1.0]. *)
Lemma scenario3_converted :
  floatify scenario3 = (JDict [("w", JFloat Float.one)], None).
Proof. reflexivity. Qed.

(** C3, as the code has it: when the walk completes, a boolean found
    under a target key has been replaced by [1.0] if it was [true] and
    by [0.0] if it was [false]; scenario 3 yields [{"w": 1.0}]. *)
Theorem floatify_target_bool :
  (∀ (doc : json) (p : list step) (K : string) (b : bool),
     (floatify doc).2 = None →
     is_target K = true →
     at_path (p ++ [Key K]) doc = Some (JBool b) →
     at_path (p ++ [Key K]) (floatify doc).1
       = Some (JFloat (if b then Float.one else Float.zero))) ∧
  floatify scenario3 = (JDict [("w", JFloat Float.one)], None).
Proof.
  split; [|reflexivity].
  intros doc p K b Hok HK Hv.
  destruct (floatify_at_path _ _ _ Hok Hv) as [_ ->].
  rewrite visit_at_snoc. unfold visit. rewrite HK. by destruct b.
Qed.

Lemma floatify_target_bool_witness :
  (floatify scenario3).2 = None ∧
  is_target "w" = true ∧
  at_path ([] ++ [Key "w"]) scenario3 = Some (JBool true) ∧
  at_path ([] ++ [Key "w"]) (floatify scenario3).1 = Some (JFloat Float.one).
Proof.
  split; [reflexivity|]. split; [reflexivity|]. split; [reflexivity|].
  apply (proj1 floatify_target_bool scenario3 [] "w" true); reflexivity.
Defined.

(** ** Everything else *)

(** A boolean under a target key is stored over: [false] becomes
    [0.0]. *)
Lemma target_bool_rewritten :
  floatify (JDict [("fr", JBool false)]) = (JDict [("fr", JFloat Float.zero)], None) ∧
  at_path [Key "fr"] (floatify (JDict [("fr", JBool false)])).1 ≠ Some (JBool false).
Proof. split; [reflexivity|discriminate]. Qed.

(** C2, as the code has it: a value that sits under a non-target key
    or at an array index, and a value under a target key that is not
    an [int] (booleans being [int]s), is never stored over.  Whether
    the walk completes or raises, a scalar there is left as it is, and
    an array or object there is the same container, holding what
    [floatify] made of it (all of it once the walk has completed). *)
Theorem floatify_elsewhere (doc : json) (p : list step) (s : step) (v : json) :
  at_path (p ++ [s]) doc = Some v →
  (∀ k, s = Key k → is_target k = false ∨ isinstance_int v = false) →
  ∃ v', at_path (p ++ [s]) (floatify doc).1 = Some v' ∧
        (v' = v ∨ v' = (floatify v).1) ∧
        (is_container v = false → v' = v) ∧
        ((floatify doc).2 = None → v' = (floatify v).1).
Proof.
  intros Hv Hs.
  assert (visit s v = floatify v) as Hsv.
  { destruct s as [k|i]; [|done]. unfold visit.
    destruct (Hs k eq_refl) as [-> | ->]; by rewrite ?andb_false_r. }
  assert (is_container v = false → (floatify v).1 = v) as Hleaf by (by destruct v).
  destruct (floatify_at_path_any _ _ _ Hv) as [Hv'|Hv'];
    rewrite ?visit_at_snoc, ?Hsv in Hv'; eexists; (split; [exact Hv'|]).
  - split_and!; [by left|done|].
    intros Hok. destruct (floatify_at_path _ _ _ Hok Hv) as [_ Hv''].
    rewrite visit_at_snoc, Hsv in Hv''. congruence.
  - split_and!; [by right|done..].
Qed.

Lemma floatify_elsewhere_witness :
  at_path ([] ++ [Key "name"]) scenario4 = Some (JStr "op") ∧
  (∀ k, Key "name" = Key k → is_target k = false ∨ isinstance_int (JStr "op") = false) ∧
  ∃ v', at_path ([] ++ [Key "name"]) (floatify scenario4).1 = Some v' ∧
        (v' = JStr "op" ∨ v' = (floatify (JStr "op")).1) ∧
        (is_container (JStr "op") = false → v' = JStr "op") ∧
        ((floatify scenario4).2 = None → v' = (floatify (JStr "op")).1).
Proof.
  split; [reflexivity|].
  split; [intros k _; right; reflexivity|].
  apply (floatify_elsewhere scenario4 [] (Key "name") (JStr "op"));
    [reflexivity|intros k _; right; reflexivity].
Defined.

(** ** Shape *)

Lemma shape_of_visit s v :
  shape_of (floatify v).1 = shape_of v → shape_of (visit s v).1 = shape_of v.
Proof.
  intros IH. destruct s as [k|i]; [|done]. unfold visit.
  destruct (is_target k && isinstance_int v) eqn:Hkv; [|done].
  apply andb_prop in Hkv as [_ Hv].
  destruct (float v); [done|]. by destruct v.
Qed.

Lemma shape_of_for_elems elems :
  Forall (λ i, shape_of (floatify i).1 = shape_of i) elems →
  map shape_of (for_elems floatify elems).1 = map shape_of elems.
Proof.
  induction 1 as [|i rest Hi _ IH]; [done|].
  rewrite for_elems_cons. revert Hi.
  destruct (floatify i) as [i' [e|]]; cbn [fst snd map]; intros ->; by rewrite ?IH.
Qed.

Lemma shape_of_for_items (items : dict) :
  Forall (λ kv, shape_of (floatify kv.2).1 = shape_of kv.2) items →
  map (λ kv, (kv.1, shape_of kv.2)) (for_items floatify items).1
    = map (λ kv, (kv.1, shape_of kv.2)) items.
Proof.
  induction 1 as [|[k v] rest Hv _ IH]; [done|].
  rewrite for_items_cons. cbn [snd] in Hv.
  apply (shape_of_visit (Key k)) in Hv. revert Hv.
  destruct (visit (Key k) v) as [v' [e|]]; cbn [fst snd map]; intros ->; by rewrite ?IH.
Qed.

Lemma coerced_visit k v :
  coerced v (floatify v).1 →
  coerced v (visit (Key k) v).1 ∨
  is_target k = true ∧ isinstance_int v = true ∧
  ∃ x, float v = inr x ∧ (visit (Key k) v).1 = JFloat x.
Proof.
  intros IH. unfold visit.
  destruct (is_target k && isinstance_int v) eqn:Hkv; [|by left].
  apply andb_prop in Hkv as [Hk Hv].
  destruct (float v) as [e|x]; [left; constructor|].
  right. eauto.
Qed.

Lemma coerced_items_same (items : dict) :
  Forall2 (λ kv kv',
             kv.1 = kv'.1 ∧
             (coerced kv.2 kv'.2 ∨
              is_target kv.1 = true ∧ isinstance_int kv.2 = true ∧
              ∃ x, float kv.2 = inr x ∧ kv'.2 = JFloat x))
          items items.
Proof. induction items; constructor; [split; [done|left; constructor]|done]. Qed.

Lemma coerced_for_elems elems :
  Forall (λ i, coerced i (floatify i).1) elems →
  Forall2 coerced elems (for_elems floatify elems).1.
Proof.
  induction 1 as [|i rest Hi _ IH]; [constructor|].
  rewrite for_elems_cons. revert Hi.
  destruct (floatify i) as [i' [e|]]; cbn [fst snd]; constructor; try done.
  clear. induction rest; constructor; [constructor|done].
Qed.

Lemma coerced_for_items (items : dict) :
  Forall (λ kv, coerced kv.2 (floatify kv.2).1) items →
  Forall2 (λ kv kv',
             kv.1 = kv'.1 ∧
             (coerced kv.2 kv'.2 ∨
              is_target kv.1 = true ∧ isinstance_int kv.2 = true ∧
              ∃ x, float kv.2 = inr x ∧ kv'.2 = JFloat x))
          items (for_items floatify items).1.
Proof.
  induction 1 as [|[k v] rest Hv _ IH]; [constructor|].
  rewrite for_items_cons. cbn [snd] in Hv.
  apply (coerced_visit k) in Hv. revert Hv.
  destruct (visit (Key k) v) as [v' [e|]]; cbn [fst snd]; constructor; try done.
  apply coerced_items_same.
Qed.

(** C5: whether the walk completes or raises, the document it leaves
    has the shape of the input (the same keys in every object, the
    same length of every array, the same nesting), and differs from it
    only in [int] leaves under target keys, which may have become
    their floats. *)
Theorem floatify_preserves_shape (doc : json) :
  shape_of (floatify doc).1 = shape_of doc ∧ coerced doc (floatify doc).1.
Proof.
  induction doc as [| | | | |elems IH|items IH] using json_ind;
    try (split; [done|constructor]).
  - rewrite floatify_JList; cbn [fst shape_of]. split.
    + f_equal. apply shape_of_for_elems. eapply Forall_impl; [done|]. by intros ? [].
    + constructor. apply coerced_for_elems. eapply Forall_impl; [done|]. by intros ? [].
  - rewrite floatify_JDict; cbn [fst shape_of]. split.
    + f_equal. apply shape_of_for_items. eapply Forall_impl; [done|]. by intros ? [].
    + constructor. apply coerced_for_items. eapply Forall_impl; [done|]. by intros ? [].
Qed.

(** ** Documents without target keys *)

Lemma for_elems_unchanged elems :
  Forall (λ i, no_target_keys i = true → floatify i = (i, None)) elems →
  forallb no_target_keys elems = true →
  for_elems floatify elems = (elems, None).
Proof.
  induction 1 as [|i rest Hi _ IH]; [done|].
  cbn [forallb]. intros [Hi' Hrest]%andb_prop.
  by rewrite for_elems_cons, Hi, IH.
Qed.

Lemma for_items_unchanged (items : dict) :
  Forall (λ kv, no_target_keys kv.2 = true → floatify kv.2 = (kv.2, None)) items →
  forallb (λ kv, negb (is_target kv.1) && no_target_keys kv.2) items = true →
  for_items floatify items = (items, None).
Proof.
  induction 1 as [|[k v] rest Hv _ IH]; [done|].
  cbn [forallb fst snd] in *. intros [[Hk Hv']%andb_prop Hrest]%andb_prop.
  rewrite for_items_cons. unfold visit.
  apply negb_true_iff in Hk. rewrite Hk. cbn [andb].
  by rewrite Hv, IH.
Qed.

(** C8: a document none of whose objects has a target key is left as
    it is, whatever its values are: the strings ["op"], ["w"] and the
    like as values do not trigger anything. *)
Theorem floatify_no_target_keys (doc : json) :
  no_target_keys doc = true → floatify doc = (doc, None).
Proof.
  induction doc as [| | | | |elems IH|items IH] using json_ind; try done.
  - cbn [no_target_keys]. intros Hk.
    by rewrite floatify_JList, for_elems_unchanged.
  - cbn [no_target_keys]. intros Hk.
    by rewrite floatify_JDict, for_items_unchanged.
Qed.

Lemma floatify_no_target_keys_witness :
  no_target_keys scenario4 = true ∧ floatify scenario4 = (scenario4, None).
Proof.
  split; [reflexivity|]. apply (floatify_no_target_keys scenario4). reflexivity.
Defined.

(** ** Totality and the one error *)

(** [floatify] of a document with an integer of 401 digits under a
    target key raises [OverflowError]. *)
Lemma floatify_overflow :
  floatify (JDict [("w", JInt (10 ^ 400))]) =
    (JDict [("w", JInt (10 ^ 400))], Some OverflowError).
Proof. by vm_compute. Qed.

Lemma float_spec v :
  float v = inl OverflowError ∧ (Z.abs (int_of v) <? Float.overflow_threshold) = false ∨
  (∃ x, float v = inr x) ∧ (Z.abs (int_of v) <? Float.overflow_threshold) = true.
Proof.
  unfold float. destruct (Z.ltb_spec (Z.abs (int_of v)) Float.overflow_threshold) as [Hlt|Hge].
  - right. split; [|done]. by apply FloatFacts.of_int_finite.
  - left. split; [|done]. by apply FloatFacts.of_int_overflow.
Qed.

Lemma visit_raises k v :
  (floatify v).2 = (if in_range v then None else Some OverflowError) →
  (visit (Key k) v).2 =
    if (if is_target k && isinstance_int v
        then Z.abs (int_of v) <? Float.overflow_threshold
        else in_range v)
    then None else Some OverflowError.
Proof.
  intros IH. unfold visit. destruct (is_target k && isinstance_int v); [|done].
  by destruct (float_spec v) as [[-> ->]|[[x ->] ->]].
Qed.

Lemma for_elems_raises elems :
  Forall (λ i, (floatify i).2 = if in_range i then None else Some OverflowError) elems →
  (for_elems floatify elems).2 =
    if forallb in_range elems then None else Some OverflowError.
Proof.
  induction 1 as [|i rest Hi _ IH]; [done|].
  rewrite for_elems_cons. cbn [forallb]. revert Hi.
  destruct (floatify i) as [i' [e|]]; cbn [fst snd];
    destruct (in_range i); cbn [andb]; done.
Qed.

Lemma for_items_raises (items : dict) :
  Forall (λ kv, (floatify kv.2).2 = if in_range kv.2 then None else Some OverflowError)
         items →
  (for_items floatify items).2 =
    if forallb (λ kv, if is_target kv.1 && isinstance_int kv.2
                      then Z.abs (int_of kv.2) <? Float.overflow_threshold
                      else in_range kv.2) items
    then None else Some OverflowError.
Proof.
  induction 1 as [|[k v] rest Hv _ IH]; [done|].
  rewrite for_items_cons. cbn [forallb fst snd] in *.
  apply (visit_raises k) in Hv. revert Hv.
  destruct (visit (Key k) v) as [v' [e|]]; cbn [fst snd];
    destruct (if is_target k && isinstance_int v then _ else _); cbn [andb]; done.
Qed.

Lemma floatify_raises (doc : json) :
  (floatify doc).2 = if in_range doc then None else Some OverflowError.
Proof.
  induction doc as [| | | | |elems IH|items IH] using json_ind; try done.
  - rewrite floatify_JList. cbn [snd in_range]. by apply for_elems_raises.
  - rewrite floatify_JDict. cbn [snd in_range]. by apply for_items_raises.
Qed.

(** C10, as the code has it: [floatify] is defined by recursion on the
    strict subterms of its argument, so it returns on every document;
    it completes without an error exactly when every integer (or
    boolean) the walk finds under a target key is below
    [2^1024 - 2^970] in magnitude, and raises [OverflowError]
    otherwise. *)
Theorem floatify_total (doc : json) :
  ∃ doc', floatify doc = (doc', if in_range doc then None else Some OverflowError).
Proof.
  exists (floatify doc).1. rewrite <- floatify_raises. apply surjective_pairing.
Qed.

(** ** The script *)


Lemma print_taken line w :
  (if write_through w then device_error (stdout_device w) else None) = None →
  print line w = (with_stdout (stdout w ++ [line]) w, inr ()).
Proof. intros Hd. unfold print. by rewrite Hd. Qed.

Lemma print_accepting line w :
  stdout_device w = Accepting →
  print line w = (with_stdout (stdout w ++ [line]) w, inr ()).
Proof. intros Hd. apply print_taken. rewrite Hd. by destruct (write_through w). Qed.


(** [print] touches nothing but the lines written. *)
Lemma print_frame line w :
  argv (print line w).1 = argv w ∧
  files (print line w).1 = files w ∧
  free (print line w).1 = free w ∧
  write_through (print line w).1 = write_through w ∧
  stdout_device (print line w).1 = stdout_device w.
Proof. unfold print. by destruct (if write_through w then _ else _). Qed.


Lemma flush_fails_accepting w w' :
  stdout_device w' = Accepting → flush_fails w w' = false.
Proof. intros Hd. unfold flush_fails. by rewrite Hd, andb_false_r. Qed.


Lemma finish_fst r : (finish r).1 = r.1.
Proof. by destruct r as [w [e|u]]. Qed.

Section script.
Context `{Runtime}.






(** Up to the parse, a failure leaves the world as it was. *)
Lemma body_missing_file w path :
  argv w !! 1%nat = Some path → files w !! path = None →
  body w = (w, inl (FileNotFoundError path)).
Proof. intros Ha Hf. unfold body, mbind, run_bind, sys_argv, read_text. by rewrite Ha, Hf. Qed.

Lemma body_invalid_json w path wr content msg :
  argv w !! 1%nat = Some path →
  files w !! path = Some (File true wr content) →
  json_loads content = inl msg →
  body w = (w, inl (ValueError msg)).
Proof.
  intros Ha Hf Hl. unfold body, mbind, run_bind, sys_argv, read_text, load.
  by rewrite Ha, Hf, Hl.
Qed.

(** When every statement up to the write succeeds, the file holds the
    serialised document that [floatify] left, and what remains is the
    confirmation. *)
Lemma body_processes w path content data data' :
  argv w !! 1%nat = Some path →
  files w !! path = Some (File true true content) →
  json_loads content = inr data →
  floatify data = (data', None) →
  (String.length (json_dumps data') ≤ free w)%nat →
  body w =
    print ("Processed " +:+ path)
      (with_files (<[path := File true true (json_dumps data')]> (files w))
                  (free w - String.length (json_dumps data')) w).
Proof.
  intros Ha Hf Hl Hd Hfree.
  unfold body, sys_argv, read_text, load, call_floatify, open_w, write,
    set_file, raise, mbind, run_bind, mret, run_ret.
  repeat first
    [ rewrite Ha | rewrite Hf | rewrite Hl | rewrite Hd
    | rewrite lookup_insert_eq | rewrite decide_True by done
    | progress cbn [argv files free stdout with_files] ].
  by rewrite insert_insert_eq.
Qed.

(** The handler touches nothing but the lines written. *)
Lemma main_frame w :
  argv (main w).1 = argv (body w).1 ∧
  files (main w).1 = files (body w).1 ∧
  free (main w).1 = free (body w).1 ∧
  write_through (main w).1 = write_through (body w).1 ∧
  stdout_device (main w).1 = stdout_device (body w).1.
Proof.
  unfold main. destruct (body w) as [w' [e|u]]; [|done].
  destruct (isinstance_Exception e); [|done].
  rewrite finish_fst. apply print_frame.
Qed.

Lemma exit_status_main w w' t :
  main w = (w', t) →
  exit_status w =
    match t with
    | Uncaught KeyboardInterrupt => Killed 2
    | Uncaught _ => if flush_fails w w' then Exited 120 else Exited 1
    | Finished => if flush_fails w w' then Exited 120 else Exited 0
    end.
Proof. intros Hm. unfold exit_status. by rewrite Hm. Qed.

(** A script whose one remaining effect is to print [line], on a
    standard output that takes it. *)
Lemma main_prints_accepting w line :
  main w = finish (print line w) →
  stdout_device w = Accepting →
  stdout (main w).1 = (stdout w ++ [line])%list ∧
  (main w).2 = Finished ∧
  exit_status w = Exited 0.
Proof.
  intros Hm Hd. rewrite (print_accepting _ _ Hd) in Hm.
  rewrite (exit_status_main _ _ _ Hm), Hm. cbn. unfold flush_fails. cbn.
  by rewrite Hd, andb_false_r.
Qed.



(** C7: run on a path where there is no file, the script does nothing
    but print the description of the error: the file system is as it
    was, and when standard output takes the line, the line is there
    and the exit status is 0. *)
Theorem missing_file_no_write (w : world) (path : string) :
  argv w !! 1%nat = Some path →
  files w !! path = None →
  main w = finish (print (str (FileNotFoundError path)) w) ∧
  files (main w).1 = files w ∧
  free (main w).1 = free w ∧
  (stdout_device w = Accepting →
   stdout (main w).1 = (stdout w ++ [str (FileNotFoundError path)])%list ∧
   exit_status w = Exited 0).
Proof.
  intros Ha Hf.
  assert (main w = finish (print (str (FileNotFoundError path)) w)) as Hm
    by (unfold main; by rewrite (body_missing_file _ _ Ha Hf)).
  split_and!; [done| | |].
  - rewrite Hm, finish_fst. apply print_frame.
  - rewrite Hm, finish_fst. apply print_frame.
  - intros Hd. by destruct (main_prints_accepting _ _ Hm Hd) as (? & _ & ?).
Qed.

(** C9: run on a readable file whose text [json.load] rejects, the
    script does nothing but print the description of the parse error:
    the file system, and so the text of the file, is as it was, and
    when standard output takes the line, the line is there and the
    exit status is 0. *)
Theorem invalid_json_no_write (w : world) (path : string) (wr : bool)
    (content msg : string) :
  argv w !! 1%nat = Some path →
  files w !! path = Some (File true wr content) →
  json_loads content = inl msg →
  main w = finish (print msg w) ∧
  files (main w).1 = files w ∧
  free (main w).1 = free w ∧
  (stdout_device w = Accepting →
   stdout (main w).1 = (stdout w ++ [msg])%list ∧
   exit_status w = Exited 0).
Proof.
  intros Ha Hf Hl.
  assert (main w = finish (print msg w)) as Hm
    by (unfold main; by rewrite (body_invalid_json _ _ _ _ _ Ha Hf Hl)).
  split_and!; [done| | |].
  - rewrite Hm, finish_fst. apply print_frame.
  - rewrite Hm, finish_fst. apply print_frame.
  - intros Hd. by destruct (main_prints_accepting _ _ Hm Hd) as (? & _ & ?).
Qed.

End script.


Lemma missing_file_no_write_witness :
  let w := example_world "missing.json" in
  let line := @str null_runtime (FileNotFoundError "missing.json") in
  argv w !! 1%nat = Some "missing.json" ∧
  files w !! "missing.json" = None ∧
  @main null_runtime w = finish (print line w) ∧
  files (@main null_runtime w).1 = files w ∧
  free (@main null_runtime w).1 = free w ∧
  (stdout_device w = Accepting →
   stdout (@main null_runtime w).1 = (stdout w ++ [line])%list ∧
   @exit_status null_runtime w = Exited 0).
Proof.
  split; [reflexivity|]. split; [by vm_compute|].
  apply (@missing_file_no_write null_runtime (example_world "missing.json") "missing.json");
    [reflexivity|by vm_compute].
Defined.

Lemma invalid_json_no_write_witness :
  let w := example_world "notes.txt" in
  let line := "Expecting value: line 1 column 1 (char 0)" in
  argv w !! 1%nat = Some "notes.txt" ∧
  files w !! "notes.txt" = Some (File true true "hello") ∧
  @json_loads null_runtime "hello" = inl line ∧
  @main null_runtime w = finish (print line w) ∧
  files (@main null_runtime w).1 = files w ∧
  free (@main null_runtime w).1 = free w ∧
  (stdout_device w = Accepting →
   stdout (@main null_runtime w).1 = (stdout w ++ [line])%list ∧
   @exit_status null_runtime w = Exited 0).
Proof.
  split; [reflexivity|]. split; [by vm_compute|]. split; [reflexivity|].
  apply (@invalid_json_no_write null_runtime (example_world "notes.txt") "notes.txt"
           true "hello" "Expecting value: line 1 column 1 (char 0)");
    [reflexivity|by vm_compute|reflexivity].
Defined.

(** * Further properties of the transform *)

(** ** Documents the walk leaves alone *)

Lemma visit_floatified k v :
  ((floatify v).2 = None → floatified (floatify v).1 = true) →
  (visit (Key k) v).2 = None →
  negb (is_target k && isinstance_int (visit (Key k) v).1)
    && floatified (visit (Key k) v).1 = true.
Proof.
  intros IH. unfold visit. destruct (is_target k && isinstance_int v) eqn:Hkv.
  - destruct (float v); [done|]. intros _. cbn. by rewrite andb_false_r.
  - intros Hok. by rewrite isinstance_int_floatify, Hkv, IH.
Qed.

Lemma for_elems_floatified elems :
  Forall (λ i, (floatify i).2 = None → floatified (floatify i).1 = true) elems →
  (for_elems floatify elems).2 = None →
  forallb floatified (for_elems floatify elems).1 = true.
Proof.
  induction 1 as [|i rest Hi _ IH]; [done|].
  rewrite for_elems_cons. revert Hi.
  destruct (floatify i) as [i' [e|]]; cbn [fst snd forallb]; [done|].
  intros Hi Hrest. by rewrite Hi, IH.
Qed.

Lemma for_items_floatified (items : dict) :
  Forall (λ kv, (floatify kv.2).2 = None → floatified (floatify kv.2).1 = true) items →
  (for_items floatify items).2 = None →
  forallb (λ kv, negb (is_target kv.1 && isinstance_int kv.2) && floatified kv.2)
          (for_items floatify items).1 = true.
Proof.
  induction 1 as [|[k v] rest Hv _ IH]; [done|].
  rewrite for_items_cons. cbn [snd] in Hv.
  pose proof (visit_floatified k v Hv) as Hv'. revert Hv'.
  destruct (visit (Key k) v) as [v' [e|]]; cbn [fst snd forallb]; [done|].
  intros Hv' Hrest. by rewrite Hv', IH.
Qed.

(** X1: when the walk completes, no object of the document it leaves
    holds an [int] (or a boolean) under a target key any more. *)
Theorem floatify_leaves_no_target_int (doc : json) :
  (floatify doc).2 = None → floatified (floatify doc).1 = true.
Proof.
  induction doc as [| | | | |elems IH|items IH] using json_ind; try done.
  - rewrite floatify_JList. cbn [fst snd floatified]. by apply for_elems_floatified.
  - rewrite floatify_JDict. cbn [fst snd floatified]. by apply for_items_floatified.
Qed.

Lemma floatify_leaves_no_target_int_witness :
  (floatify scenario2).2 = None ∧ floatified (floatify scenario2).1 = true.
Proof.
  split; [reflexivity|]. apply (floatify_leaves_no_target_int scenario2). reflexivity.
Defined.

Lemma for_elems_fixed elems :
  Forall (λ i, floatified i = true ↔ floatify i = (i, None)) elems →
  forallb floatified elems = true ↔ for_elems floatify elems = (elems, None).
Proof.
  induction 1 as [|i rest Hi _ IH]; [done|].
  rewrite for_elems_cons. cbn [forallb]. rewrite andb_true_iff, Hi, IH.
  destruct (floatify i) as [i' [e|]]; cbn [fst snd].
  - split; [by intros [? _]|done].
  - destruct (for_elems floatify rest) as [rest' r]; cbn [fst snd].
    split; [by intros [[= ->] [= -> ->]]|by intros [= -> -> ->]].
Qed.

Lemma visit_fixed k v :
  (floatified v = true ↔ floatify v = (v, None)) →
  negb (is_target k && isinstance_int v) && floatified v = true
    ↔ visit (Key k) v = (v, None).
Proof.
  intros IH. unfold visit. destruct (is_target k && isinstance_int v) eqn:Hkv; cbn [negb andb].
  - apply andb_prop in Hkv as [_ Hv].
    split; [done|]. destruct (float v); [done|]. intros [= <-]. done.
  - done.
Qed.

Lemma for_items_fixed (items : dict) :
  Forall (λ kv, floatified kv.2 = true ↔ floatify kv.2 = (kv.2, None)) items →
  forallb (λ kv, negb (is_target kv.1 && isinstance_int kv.2) && floatified kv.2) items
    = true
  ↔ for_items floatify items = (items, None).
Proof.
  induction 1 as [|[k v] rest Hv _ IH]; [done|].
  rewrite for_items_cons. cbn [forallb fst snd] in *.
  rewrite andb_true_iff, (visit_fixed k v Hv), IH.
  destruct (visit (Key k) v) as [v' [e|]]; cbn [fst snd].
  - split; [by intros [? _]|done].
  - destruct (for_items floatify rest) as [rest' r]; cbn [fst snd].
    split; [by intros [[= ->] [= -> ->]]|by intros [= -> -> ->]].
Qed.

(** X2: the documents that [floatify] leaves exactly as they are,
    without raising, are those in which no object holds an [int] (or a
    boolean) under a target key. *)
Theorem floatify_fixed_points (doc : json) :
  floatified doc = true ↔ floatify doc = (doc, None).
Proof.
  induction doc as [| | | | |elems IH|items IH] using json_ind; try done.
  - cbn [floatified]. rewrite floatify_JList, (for_elems_fixed _ IH).
    destruct (for_elems floatify elems); cbn [fst snd].
    split; [by intros [= -> ->]|by intros [= -> ->]].
  - cbn [floatified]. rewrite floatify_JDict, (for_items_fixed _ IH).
    destruct (for_items floatify items); cbn [fst snd].
    split; [by intros [= -> ->]|by intros [= -> ->]].
Qed.

(** ** The loops over a concatenation *)

Lemma for_items_app (a b : dict) :
  for_items floatify (a ++ b) =
    match for_items floatify a with
    | (a', Some e) => (a' ++ b, Some e)
    | (a', None) => (a' ++ (for_items floatify b).1, (for_items floatify b).2)
    end.
Proof.
  induction a as [|[k v] a IH].
  - simpl. by destruct (for_items floatify b).
  - rewrite <- app_comm_cons, !for_items_cons, IH.
    destruct (visit (Key k) v) as [v' [e|]]; [done|].
    by destruct (for_items floatify a) as [a' [e|]].
Qed.

Lemma for_elems_app (a b : list json) :
  for_elems floatify (a ++ b) =
    match for_elems floatify a with
    | (a', Some e) => (a' ++ b, Some e)
    | (a', None) => (a' ++ (for_elems floatify b).1, (for_elems floatify b).2)
    end.
Proof.
  induction a as [|i a IH].
  - simpl. by destruct (for_elems floatify b).
  - rewrite <- app_comm_cons, !for_elems_cons, IH.
    destruct (floatify i) as [i' [e|]]; [done|].
    by destruct (for_elems floatify a) as [a' [e|]].
Qed.

(** X3: the walk over a dict or a list stops at the first error.  The
    items before it have been walked, the items after it are left as
    they were, and when there is no error in the first part the walk
    goes on through the second. *)
Theorem floatify_app (a b : dict) (l m : list json) :
  floatify (JDict (a ++ b)) =
    match floatify (JDict a), floatify (JDict b) with
    | (JDict a', Some e), _ => (JDict (a' ++ b), Some e)
    | (JDict a', None), (JDict b', r) => (JDict (a' ++ b'), r)
    | _, _ => (JDict (a ++ b), None)
    end ∧
  floatify (JList (l ++ m)) =
    match floatify (JList l), floatify (JList m) with
    | (JList l', Some e), _ => (JList (l' ++ m), Some e)
    | (JList l', None), (JList m', r) => (JList (l' ++ m'), r)
    | _, _ => (JList (l ++ m), None)
    end.
Proof.
  split.
  - rewrite !floatify_JDict, for_items_app.
    by destruct (for_items floatify a) as [a' [e|]].
  - rewrite !floatify_JList, for_elems_app.
    by destruct (for_elems floatify l) as [l' [e|]].
Qed.

(** X4: on the items of a dict, whose keys are unique, the loop that
    stores through [obj[k] = ...] while it iterates over [obj.items()]
    changes the item it is visiting and no other, and keeps the order
    and the number of items: it does what [for_items] does. *)
Theorem floatify_items_in_place (items : dict) :
  NoDup items.*1 →
  for_items_in_place floatify items = for_items floatify items ∧
  (for_items_in_place floatify items).1.*1 = items.*1.
Proof.
  intros Hnd. rewrite (for_items_in_place_correct floatify items Hnd). split; [done|].
  clear Hnd. induction items as [|[k v] rest IH]; [done|].
  rewrite for_items_cons.
  destruct (visit (Key k) v) as [v' [e|]]; cbn [fst snd]; [done|].
  by rewrite !fmap_cons, IH.
Qed.

Lemma floatify_items_in_place_witness :
  NoDup [("st", JInt 5); ("w", JInt 200)].*1 ∧
  for_items_in_place floatify [("st", JInt 5); ("w", JInt 200)]
    = for_items floatify [("st", JInt 5); ("w", JInt 200)] ∧
  (for_items_in_place floatify [("st", JInt 5); ("w", JInt 200)]).1.*1
    = [("st", JInt 5); ("w", JInt 200)].*1.
Proof.
  assert (NoDup [("st", JInt 5); ("w", JInt 200)].*1) as Hnd
    by (apply (bool_decide_unpack (NoDup ["st"; "w"])); vm_compute; exact I).
  split; [exact Hnd|].
  apply (floatify_items_in_place [("st", JInt 5); ("w", JInt 200)] Hnd).
Defined.

(** * Further properties of the script *)

Lemma floatify_twice (doc : json) : floatify (floatify doc).1 = floatify doc.
Proof.
  induction doc as [| | | | |elems IH|items IH] using json_ind; try done.
  - rewrite !floatify_JList; cbn [fst snd]. rewrite floatify_JList.
    by rewrite for_elems_twice.
  - rewrite !floatify_JDict; cbn [fst snd]. rewrite floatify_JDict.
    by rewrite for_items_twice.
Qed.

Section script_effects.
Context `{Runtime}.

Ltac body_step :=
  match goal with
  | |- context [match ?x with _ => _ end] => destruct x eqn:?
  | H : context [match ?x with _ => _ end] |- _ => destruct x eqn:?
  end.

Ltac body_cases :=
  unfold body, sys_argv, read_text, load, call_floatify, open_w, write, print,
    set_file, with_files, with_stdout, raise, mbind, run_bind, mret, run_ret in *;
  cbn [argv files free stdout write_through stdout_device] in *;
  repeat (body_step; simplify_eq/=).

Lemma body_other_files w w' r p :
  body w = (w', r) → argv w !! 1%nat ≠ Some p → files w' !! p = files w !! p.
Proof.
  intros Hb Hp. body_cases; try done.
  all: rewrite !lookup_insert_ne by congruence; done.
Qed.

Lemma body_files w w' r :
  body w = (w', r) →
  files w' = files w ∨
  ∃ path content data data',
    argv w !! 1%nat = Some path ∧
    files w !! path = Some (File true true content) ∧
    json_loads content = inr data ∧
    floatify data = (data', None).
Proof. intros Hb. body_cases; first [by left | right; eauto 10]. Qed.

Lemma main_files w : files (main w).1 = files (body w).1.
Proof. apply main_frame. Qed.

(** The world a run leaves when every statement up to the write has
    succeeded, whatever becomes of the confirmation. *)
Lemma main_processes w path content data data' :
  argv w !! 1%nat = Some path →
  files w !! path = Some (File true true content) →
  json_loads content = inr data →
  floatify data = (data', None) →
  (String.length (json_dumps data') ≤ free w)%nat →
  argv (main w).1 = argv w ∧
  files (main w).1 = <[path := File true true (json_dumps data')]> (files w) ∧
  free (main w).1 = (free w - String.length (json_dumps data'))%nat ∧
  stdout_device (main w).1 = stdout_device w ∧
  (stdout_device w = Accepting →
   stdout (main w).1 = (stdout w ++ ["Processed " +:+ path])%list ∧
   (main w).2 = Finished ∧
   exit_status w = Exited 0).
Proof.
  intros Ha Hf Hl Hd Hfree.
  pose proof (body_processes _ _ _ _ _ Ha Hf Hl Hd Hfree) as Hb.
  destruct (main_frame w) as (-> & -> & -> & _ & ->). rewrite Hb.
  destruct (print_frame ("Processed " +:+ path)
    (with_files (<[path := File true true (json_dumps data')]> (files w))
                (free w - String.length (json_dumps data')) w))
    as (-> & -> & -> & _ & ->).
  split_and!; [done..|]. intros Hdev.
  destruct (main w) as [w'' t] eqn:Hm. rewrite (exit_status_main _ _ _ Hm).
  unfold main in Hm. rewrite Hb, print_accepting in Hm by done.
  injection Hm as <- <-. by rewrite flush_fails_accepting.
Qed.

(** X5: when the file parses, the walk completes and the device has
    room, the script leaves in the file the serialisation of the
    document that [floatify] left; when standard output takes what is
    printed, it prints the confirmation with the path and ends
    normally, with exit status 0. *)
Theorem main_writes_floatified (w : world) (path content : string) (data data' : json) :
  argv w !! 1%nat = Some path →
  files w !! path = Some (File true true content) →
  json_loads content = inr data →
  floatify data = (data', None) →
  (String.length (json_dumps data') ≤ free w)%nat →
  files (main w).1 !! path = Some (File true true (json_dumps data')) ∧
  (stdout_device w = Accepting →
   stdout (main w).1 = (stdout w ++ ["Processed " +:+ path])%list ∧
   (main w).2 = Finished ∧
   exit_status w = Exited 0).
Proof.
  intros Ha Hf Hl Hd Hfree.
  destruct (main_processes _ _ _ _ _ Ha Hf Hl Hd Hfree) as (_ & -> & _ & _ & Hout).
  by rewrite lookup_insert_eq.
Qed.

(** X6: the script changes no entry of the file system other than the
    one under the path given as its first argument. *)
Theorem main_other_files (w : world) (p : string) :
  argv w !! 1%nat ≠ Some p → files (main w).1 !! p = files w !! p.
Proof.
  intros Hp. rewrite main_files.
  destruct (body w) as [w' r] eqn:Hb. by eapply body_other_files.
Qed.

(** X7: the script changes the file system only after the file was
    read, its text parsed, and the walk completed: a failure of any of
    these leaves every file as it was. *)
Theorem main_writes_only_after_walk (w : world) :
  files (main w).1 = files w ∨
  ∃ path content data data',
    argv w !! 1%nat = Some path ∧
    files w !! path = Some (File true true content) ∧
    json_loads content = inr data ∧
    floatify data = (data', None).
Proof.
  rewrite main_files. destruct (body w) as [w' r] eqn:Hb. by eapply body_files.
Qed.

(** X8: run without an argument, the script does nothing but print
    the description of the [IndexError]. *)
Theorem main_missing_argument (w : world) :
  argv w !! 1%nat = None →
  main w = finish (print "list index out of range" w).
Proof.
  intros Ha. unfold main, body, mbind, run_bind, sys_argv. by rewrite Ha.
Qed.

(** X9: when an integer under a target key is too large for
    [float], the script does nothing but print the description of the
    [OverflowError]: the document, converted in part, is dropped and
    the file keeps its text. *)
Theorem main_overflow (w : world) (path content : string) (wr : bool) (data : json) :
  argv w !! 1%nat = Some path →
  files w !! path = Some (File true wr content) →
  json_loads content = inr data →
  in_range data = false →
  main w = finish (print "int too large to convert to float" w).
Proof.
  intros Ha Hf Hl Hr. pose proof (floatify_raises data) as Hd. rewrite Hr in Hd.
  unfold main, body, mbind, run_bind, sys_argv, read_text, load, call_floatify,
    raise, mret, run_ret.
  rewrite Ha, Hf, Hl. destruct (floatify data) as [data' r]. cbn [snd] in Hd.
  by rewrite Hd.
Qed.

(** X10: on a file that can be read but not written, the script does
    nothing but print the description of the [PermissionError]: the
    open for writing fails before it truncates. *)
Theorem main_read_only (w : world) (path content : string) (data data' : json) :
  argv w !! 1%nat = Some path →
  files w !! path = Some (File true false content) →
  json_loads content = inr data →
  floatify data = (data', None) →
  main w = finish (print ("[Errno 13] Permission denied: " +:+ repr path) w).
Proof.
  intros Ha Hf Hl Hd.
  unfold main, body, mbind, run_bind, sys_argv, read_text, load, call_floatify,
    open_w, raise, mret, run_ret.
  by rewrite Ha, Hf, Hl, Hd, Ha, Hf.
Qed.

(** X11: when the parser reads back what the serialiser wrote, a
    second run of the script leaves the file as the first run left
    it; when standard output takes what is printed, it prints the
    confirmation again and ends normally. *)
Theorem main_twice (w : world) (path content : string) (data data' : json) :
  argv w !! 1%nat = Some path →
  files w !! path = Some (File true true content) →
  json_loads content = inr data →
  floatify data = (data', None) →
  json_loads (json_dumps data') = inr data' →
  (2 * String.length (json_dumps data') ≤ free w)%nat →
  files (main (main w).1).1 = files (main w).1 ∧
  (stdout_device w = Accepting →
   stdout (main (main w).1).1
     = (stdout w ++ ["Processed " +:+ path; "Processed " +:+ path])%list ∧
   (main (main w).1).2 = Finished).
Proof.
  intros Ha Hf Hl Hd Hrt Hfree.
  destruct (main_processes w _ _ _ _ Ha Hf Hl Hd) as (Ha1 & Hf1 & Hfree1 & Hdev1 & Hout1);
    [lia|].
  assert (floatify data' = (data', None)) as Hd'.
  { pose proof (floatify_twice data) as Ht. by rewrite Hd in Ht. }
  destruct (main_processes (main w).1 path (json_dumps data') data' data')
    as (_ & Hf2 & _ & _ & Hout2);
    [by rewrite Ha1|by rewrite Hf1, lookup_insert_eq|done..|lia|].
  split.
  - by rewrite Hf2, Hf1, insert_insert_eq.
  - intros Hdev. destruct (Hout1 Hdev) as (Hs1 & _ & _).
    destruct Hout2 as (Hs2 & Hfin & _); [congruence|].
    by rewrite Hs2, Hs1, <- (assoc_L (++)).
Qed.

End script_effects.

Lemma main_writes_floatified_witness :
  argv sample_world !! 1%nat = Some "data.json" ∧
  files sample_world !! "data.json" = Some (File true true sample_text) ∧
  @json_loads sample_runtime sample_text = inr sample ∧
  floatify sample = (sample_floats, None) ∧
  (String.length (@json_dumps sample_runtime sample_floats) ≤ free sample_world)%nat ∧
  files (@main sample_runtime sample_world).1 !! "data.json"
    = Some (File true true (@json_dumps sample_runtime sample_floats)) ∧
  (stdout_device sample_world = Accepting →
   stdout (@main sample_runtime sample_world).1
     = (stdout sample_world ++ ["Processed " +:+ "data.json"])%list ∧
   (@main sample_runtime sample_world).2 = Finished ∧
   @exit_status sample_runtime sample_world = Exited 0).
Proof.
  split; [reflexivity|]. split; [by vm_compute|]. split; [reflexivity|].
  split; [reflexivity|]. split; [vm_compute; lia|].
  apply (@main_writes_floatified sample_runtime sample_world "data.json" sample_text
           sample sample_floats);
    [reflexivity|by vm_compute|reflexivity|reflexivity|vm_compute; lia].
Defined.

Lemma main_other_files_witness :
  argv sample_world !! 1%nat ≠ Some "notes.txt" ∧
  files sample_world !! "notes.txt" = Some (File true true "hello") ∧
  files (@main sample_runtime sample_world).1 !! "data.json"
    ≠ files sample_world !! "data.json" ∧
  files (@main sample_runtime sample_world).1 !! "notes.txt"
    = files sample_world !! "notes.txt".
Proof.
  split; [discriminate|]. split; [by vm_compute|]. split; [by vm_compute|].
  apply (@main_other_files sample_runtime sample_world "notes.txt"). discriminate.
Defined.

Lemma main_missing_argument_witness :
  let w := {| argv := ["floatify.py"]; files := ∅; free := 0; stdout := [];
              write_through := false; stdout_device := Accepting |} in
  argv w !! 1%nat = None ∧
  @main null_runtime w = finish (print "list index out of range" w).
Proof.
  split; [reflexivity|].
  apply (@main_missing_argument null_runtime
           {| argv := ["floatify.py"]; files := ∅; free := 0; stdout := [];
              write_through := false; stdout_device := Accepting |}).
  reflexivity.
Defined.

Lemma main_overflow_witness :
  let R := fixed_runtime (JDict [("w", JInt (10 ^ 400))]) in
  argv null_world !! 1%nat = Some "data.json" ∧
  files null_world !! "data.json" = Some (File true true "null") ∧
  @json_loads R "null" = inr (JDict [("w", JInt (10 ^ 400))]) ∧
  in_range (JDict [("w", JInt (10 ^ 400))]) = false ∧
  @main R null_world = finish (print "int too large to convert to float" null_world).
Proof.
  split; [reflexivity|]. split; [by vm_compute|]. split; [reflexivity|].
  split; [by vm_compute|].
  apply (@main_overflow (fixed_runtime (JDict [("w", JInt (10 ^ 400))])) null_world
           "data.json" "null" true (JDict [("w", JInt (10 ^ 400))]));
    [reflexivity|by vm_compute|reflexivity|by vm_compute].
Defined.

Lemma main_read_only_witness :
  argv read_only_world !! 1%nat = Some "data.json" ∧
  files read_only_world !! "data.json" = Some (File true false "null") ∧
  @json_loads null_runtime "null" = inr JNull ∧
  floatify JNull = (JNull, None) ∧
  @main null_runtime read_only_world =
    finish (print ("[Errno 13] Permission denied: " +:+ @repr null_runtime "data.json")
              read_only_world).
Proof.
  split; [reflexivity|]. split; [by vm_compute|]. split; [reflexivity|].
  split; [reflexivity|].
  apply (@main_read_only null_runtime read_only_world "data.json" "null" JNull JNull);
    [reflexivity|by vm_compute|reflexivity|reflexivity].
Defined.

Lemma main_twice_witness :
  let w1 := (@main sample_runtime sample_world).1 in
  argv sample_world !! 1%nat = Some "data.json" ∧
  files sample_world !! "data.json" = Some (File true true sample_text) ∧
  @json_loads sample_runtime sample_text = inr sample ∧
  floatify sample = (sample_floats, None) ∧
  @json_loads sample_runtime (@json_dumps sample_runtime sample_floats)
    = inr sample_floats ∧
  (2 * String.length (@json_dumps sample_runtime sample_floats) ≤ free sample_world)%nat ∧
  files w1 !! "data.json" = Some (File true true (dumped "1920.0")) ∧
  files w1 ≠ files sample_world ∧
  files (@main sample_runtime w1).1 = files w1 ∧
  (stdout_device sample_world = Accepting →
   stdout (@main sample_runtime w1).1
     = (stdout sample_world
        ++ ["Processed " +:+ "data.json"; "Processed " +:+ "data.json"])%list ∧
   (@main sample_runtime w1).2 = Finished).
Proof.
  split; [reflexivity|]. split; [by vm_compute|]. split; [reflexivity|].
  split; [reflexivity|]. split; [reflexivity|]. split; [vm_compute; lia|].
  split; [by vm_compute|].
  split.
  { intros Heq. apply (f_equal (λ fs, fs !! "data.json")) in Heq.
    vm_compute in Heq. discriminate. }
  apply (@main_twice sample_runtime sample_world "data.json" sample_text
           sample sample_floats);
    [reflexivity|by vm_compute|reflexivity|reflexivity|reflexivity|vm_compute; lia].
Defined.
